(** * redisgl/WebSocketServer.py: frame codec, handshake and session

    A shallow embedding of [WebSocketServer] (Python 3).  Python [bytes]
    are lists of [Byte.byte], Python [str] are lists of Unicode code
    points, integers are [N], and every Python exception that the code can
    raise is an [Err] of the [result] monad below. *)

From Stdlib Require Import Ascii String.
From Stdlib Require Import List Arith NArith Lia Bool.
From Stdlib Require Import Init.Byte.
Import ListNotations.

Local Open Scope N_scope.

(** ** Exceptions and the error monad *)

Inductive pyexn : Type :=
| StructError          (* struct.error *)
| UnicodeEncodeError
| TypeError
| ValueError
| IndexError
| OSError              (* socket failures *)
| Unmodelled.          (* outside the fragment of Python modelled here *)

Inductive result (A : Type) : Type :=
| Ok (a : A)
| Err (e : pyexn).
Arguments Ok {A} a.
Arguments Err {A} e.

Definition bind {A B} (r : result A) (k : A -> result B) : result B :=
  match r with
  | Ok a => k a
  | Err e => Err e
  end.

Notation "x <- r ;; k" := (bind r (fun x => k))
  (at level 61, r at next level, right associativity).
Notation "' p <- r ;; k" := (bind r (fun p => k))
  (at level 61, p pattern, r at next level, right associativity).

Fixpoint mapM {A B} (f : A -> result B) (l : list A) : result (list B) :=
  match l with
  | [] => Ok []
  | a :: l' => b <- f a ;; bs <- mapM f l' ;; Ok (b :: bs)
  end.

(** ** Bytes *)

Definition bytes := list byte.

Definition len {A} (l : list A) : N := N.of_nat (length l).

(** The byte of value [n mod 256]. *)
Definition byte_of_N (n : N) : byte :=
  match Byte.of_N (n mod 256) with
  | Some b => b
  | None => x00
  end.

(** Python's [a ^ b] on two byte values. *)
Definition byte_xor (a b : byte) : byte :=
  byte_of_N (N.lxor (Byte.to_N a) (Byte.to_N b)).

(** Python slice [l[a:b]] for non-negative [a], [b]. *)
Definition slice {A} (l : list A) (a b : nat) : list A :=
  firstn (b - a) (skipn a l).

(** Python [l[i]] for non-negative [i]. *)
Definition index {A} (l : list A) (i : nat) : result A :=
  match nth_error l i with
  | Some a => Ok a
  | None => Err IndexError
  end.

Definition bytes_eqb (a b : bytes) : bool :=
  if list_eq_dec Byte.byte_eq_dec a b then true else false.

(** ** [struct.pack] / [struct.unpack] in network byte order *)

Fixpoint le_bytes (width : nat) (n : N) : bytes :=
  match width with
  | O => []
  | S w => byte_of_N n :: le_bytes w (n / 256)
  end.

Definition be_bytes (width : nat) (n : N) : bytes := rev (le_bytes width n).

(** One field of [struct.pack("!...")]: [struct.error] when the value does
    not fit the field. *)
Definition pack_be (width : nat) (n : N) : result bytes :=
  if n <? 2 ^ (8 * N.of_nat width) then Ok (be_bytes width n)
  else Err StructError.

Definition pack_B (b : N) : result bytes := pack_be 1 b.
Definition pack_L (n : N) : result bytes := pack_be 4 n.
Definition pack_BH (b h : N) : result bytes :=
  x <- pack_be 1 b ;; y <- pack_be 2 h ;; Ok (x ++ y).
Definition pack_BQ (b q : N) : result bytes :=
  x <- pack_be 1 b ;; y <- pack_be 8 q ;; Ok (x ++ y).

(** [struct.unpack("!BB", buf)]: the buffer must hold exactly two bytes. *)
Definition unpack_BB (buf : bytes) : result (N * N) :=
  match buf with
  | [x; y] => Ok (Byte.to_N x, Byte.to_N y)
  | _ => Err StructError
  end.

(** Big-endian value of a byte string. *)
Definition be_value (b : bytes) : N :=
  fold_left (fun acc x => acc * 256 + Byte.to_N x) b 0.

(** ** Python [str] and [str.encode("utf-8")] *)

(** A [str] is its sequence of code points. *)
Definition pystr := list N.

Definition str_of_string (s : string) : pystr :=
  map N_of_ascii (list_ascii_of_string s).

Definition utf8_encode_char (c : N) : result bytes :=
  if c <? 0x80 then Ok [byte_of_N c]
  else if c <? 0x800 then
    Ok [byte_of_N (N.lor 0xC0 (N.shiftr c 6));
        byte_of_N (N.lor 0x80 (N.land c 0x3F))]
  else if c <? 0x10000 then
    if (0xD800 <=? c) && (c <=? 0xDFFF) then Err UnicodeEncodeError
    else
      Ok [byte_of_N (N.lor 0xE0 (N.shiftr c 12));
          byte_of_N (N.lor 0x80 (N.land (N.shiftr c 6) 0x3F));
          byte_of_N (N.lor 0x80 (N.land c 0x3F))]
  else if c <? 0x110000 then
    Ok [byte_of_N (N.lor 0xF0 (N.shiftr c 18));
        byte_of_N (N.lor 0x80 (N.land (N.shiftr c 12) 0x3F));
        byte_of_N (N.lor 0x80 (N.land (N.shiftr c 6) 0x3F));
        byte_of_N (N.lor 0x80 (N.land c 0x3F))]
  else Err Unmodelled.   (* not a code point: no such [str] exists *)

Definition utf8_encode (s : pystr) : result bytes :=
  bs <- mapM utf8_encode_char s ;; Ok (concat bs).

(** [bytes.decode("utf-8")], modelled on ASCII input only (the one use in
    the source decodes base64 text). *)
Definition utf8_decode_ascii (b : bytes) : result pystr :=
  mapM (fun x => if Byte.to_N x <? 0x80 then Ok (Byte.to_N x)
                 else Err Unmodelled) b.

(** ** Frame codec: encode *)

(** What [encode_bytes] and [encode_message] inspect with [type(...)]. *)
Inductive payload : Type :=
| PStr (s : pystr)
| PBytes (b : bytes).

Definition encode_bytes (message : payload) : result bytes :=
  let b1 := 0x80 in                                   (* 0b10000000 *)
  '(b1, message) <-
    match message with
    | PStr s => m <- utf8_encode s ;; Ok (N.lor b1 0x01, m)
    | PBytes b => Ok (N.lor b1 0x02, b)
    end ;;
  encoded_bytes <- pack_B b1 ;;
  let length := len message in
  encoded_bytes <-
    (if length <? 126 then
       let b2 := length in
       p <- pack_B b2 ;; Ok (encoded_bytes ++ p)
     else if length <? 2 ^ 16 - 1 then
       let b2 := 126 in
       p <- pack_BH b2 length ;; Ok (encoded_bytes ++ p)
     else
       let b2 := 127 in
       p <- pack_BQ b2 length ;; Ok (encoded_bytes ++ p)) ;;
  Ok (encoded_bytes ++ message).

(** The application messages [encode_message] accepts: [bytes], [str], or a
    dict with an ["update"] list of pairs and a ["delete"] list. *)
Inductive app_message : Type :=
| MBytes (b : bytes)
| MStr (s : pystr)
| MDelta (update : list (payload * payload)) (delete : list payload).

Fixpoint encode_updates (acc : bytes) (update : list (payload * payload))
  : result bytes :=
  match update with
  | [] => Ok acc
  | (key, val) :: rest =>
      k <- encode_bytes key ;;
      v <- encode_bytes val ;;
      encode_updates (acc ++ (k ++ v)) rest
  end.

Fixpoint encode_deletes (acc : bytes) (delete : list payload) : result bytes :=
  match delete with
  | [] => Ok acc
  | key :: rest =>
      k <- encode_bytes key ;;
      encode_deletes (acc ++ k) rest
  end.

Definition encode_message (message : app_message) : result bytes :=
  message <-
    match message with
    | MBytes b => Ok b
    | MStr s => utf8_encode s
    | MDelta update delete =>
        update_message <- pack_L (len update) ;;
        update_message <- encode_updates update_message update ;;
        delete_message <- pack_L (len delete) ;;
        delete_message <- encode_deletes delete_message delete ;;
        Ok (update_message ++ delete_message)
    end ;;
  encode_bytes (PBytes message).

(** ** Frame codec: decode *)

(** What [decode_message] can be handed: [None], a [bytes] object (what
    [socket.recv] returns), or a [str]. *)
Inductive wire_input : Type :=
| WNone
| WBytes (b : bytes)
| WStr (s : pystr).

(** [enumerate(range(a, b))] *)
Definition enumerate_range (a b : nat) : list (nat * nat) :=
  combine (seq 0 (b - a)) (seq a (b - a)).

(** The close payload [b"\x03\xe9"]. *)
Definition close_payload : bytes := [x03; xe9].

(** [None] of the result is Python's [None] ("no message"). *)
Definition decode_message (message : wire_input) : result (option bytes) :=
  match message with
  | WNone | WBytes [] | WStr [] => Ok None            (* [if not message] *)
  | WStr (_ :: _) => Err TypeError                     (* [bytearray(str)] *)
  | WBytes message =>
      (* Read opcode and length *)
      '(b1, b2) <- unpack_BB (slice message 0 2) ;;
      let op_code := N.land b1 0x0F in
      let payload_length := N.land b2 0x7F in
      (* Extract masks *)
      let idx_first_mask :=
        if payload_length =? 126 then 4%nat
        else if payload_length =? 127 then 10%nat
        else 2%nat in
      let idx_first_data := (idx_first_mask + 4)%nat in
      let masks := slice message idx_first_mask idx_first_data in
      (* Decode data *)
      decoded_bytes <-
        mapM (fun '((i, j) : nat * nat) =>
                mj <- index message j ;;
                mk <- index masks (Nat.modulo i 4) ;;
                Ok (byte_xor mj mk))
             (enumerate_range idx_first_data (length message)) ;;
      if bytes_eqb decoded_bytes close_payload then Ok None
      else Ok (Some decoded_bytes)
  end.

(** ** [bytes] methods used by the handshake *)

Definition is_cr (c : byte) : bool := Byte.eqb c x0d.
Definition is_lf (c : byte) : bool := Byte.eqb c x0a.

(** [bytes.splitlines()]: lines end at LF, CR or CR LF; the line ends are
    dropped and there is no empty last line.  [cur] is the line being read,
    last byte first. *)
Fixpoint splitlines_from (cur : bytes) (data : bytes) : list bytes :=
  match data with
  | [] => match cur with
          | [] => []
          | _ => [rev cur]
          end
  | c :: rest =>
      if is_lf c then rev cur :: splitlines_from [] rest
      else if is_cr c then
        match rest with
        | c2 :: rest2 =>
            if is_lf c2 then rev cur :: splitlines_from [] rest2
            else rev cur :: splitlines_from [] rest
        | [] => rev cur :: splitlines_from [] rest
        end
      else splitlines_from (c :: cur) rest
  end.

Definition splitlines (data : bytes) : list bytes := splitlines_from [] data.

(** [line.startswith(prefix)] *)
Fixpoint startswith (line prefix : bytes) : bool :=
  match prefix, line with
  | [], _ => true
  | p :: prefix', c :: line' => Byte.eqb c p && startswith line' prefix'
  | _ :: _, [] => false
  end.

(** [line.index(sub)]: the lowest index where [sub] starts, [ValueError]
    when there is none. *)
Fixpoint bytes_index (line sub : bytes) : result nat :=
  if startswith line sub then Ok 0%nat
  else match line with
       | [] => Err ValueError
       | _ :: line' => i <- bytes_index line' sub ;; Ok (S i)
       end.

(** ASCII whitespace, as [bytes.strip()] sees it. *)
Definition is_space (c : byte) : bool :=
  Byte.eqb c x20 || Byte.eqb c x09 || Byte.eqb c x0a
  || Byte.eqb c x0d || Byte.eqb c x0b || Byte.eqb c x0c.

Fixpoint lstrip (b : bytes) : bytes :=
  match b with
  | [] => []
  | c :: rest => if is_space c then lstrip rest else b
  end.

Definition strip (b : bytes) : bytes := rev (lstrip (rev (lstrip b))).

Definition bytes_of_string (s : string) : bytes :=
  map byte_of_ascii (list_ascii_of_string s).

(** ** [hashlib.sha1] (FIPS 180-4) *)

Module SHA1.

Definition w32 (x : N) : N := x mod 2 ^ 32.
Definition add32 (x y : N) : N := w32 (x + y).
Definition rotl (n x : N) : N :=
  w32 (N.lor (N.shiftl x n) (N.shiftr x (32 - n))).
Definition not32 (x : N) : N := N.lxor x 0xFFFFFFFF.

(** Message padding: a 1 bit, zeros, and the bit length on 64 bits. *)
Definition pad (msg : bytes) : bytes :=
  let l := length msg in
  let zeros := Nat.modulo (64 - Nat.modulo (l + 9) 64) 64 in
  msg ++ [x80] ++ repeat x00 zeros ++ be_bytes 8 (8 * N.of_nat l).

Fixpoint words (n : nat) (b : bytes) : list N :=
  match n with
  | O => []
  | S n' => be_value (firstn 4 b) :: words n' (skipn 4 b)
  end.

(** The message schedule, latest word first. *)
Fixpoint schedule (n : nat) (w : list N) : list N :=
  match n with
  | O => w
  | S n' =>
      let x := N.lxor (N.lxor (nth 2 w 0) (nth 7 w 0))
                      (N.lxor (nth 13 w 0) (nth 15 w 0)) in
      schedule n' (rotl 1 x :: w)
  end.

Definition f (t : nat) (b c d : N) : N :=
  if (t <? 20)%nat then N.lor (N.land b c) (N.land (not32 b) d)
  else if (t <? 40)%nat then N.lxor (N.lxor b c) d
  else if (t <? 60)%nat then
    N.lor (N.lor (N.land b c) (N.land b d)) (N.land c d)
  else N.lxor (N.lxor b c) d.

Definition K (t : nat) : N :=
  if (t <? 20)%nat then 0x5A827999
  else if (t <? 40)%nat then 0x6ED9EBA1
  else if (t <? 60)%nat then 0x8F1BBCDC
  else 0xCA62C1D6.

Definition state : Type := N * N * N * N * N.

Definition round (s : state) (tw : nat * N) : state :=
  let '(a, b, c, d, e) := s in
  let '(t, w) := tw in
  let temp :=
    add32 (add32 (add32 (add32 (rotl 5 a) (f t b c d)) e) (K t)) w in
  (temp, a, rotl 30 b, c, d).

Definition block (h : state) (blk : bytes) : state :=
  let w := rev (schedule 64 (rev (words 16 blk))) in
  let '(a, b, c, d, e) := fold_left round (combine (seq 0 80) w) h in
  let '(h0, h1, h2, h3, h4) := h in
  (add32 h0 a, add32 h1 b, add32 h2 c, add32 h3 d, add32 h4 e).

Fixpoint blocks (n : nat) (h : state) (b : bytes) : state :=
  match n with
  | O => h
  | S n' => blocks n' (block h (firstn 64 b)) (skipn 64 b)
  end.

Definition H0 : state :=
  (0x67452301, 0xEFCDAB89, 0x98BADCFE, 0x10325476, 0xC3D2E1F0).

(** [sha1(msg).digest()] *)
Definition digest (msg : bytes) : bytes :=
  let p := pad msg in
  let '(h0, h1, h2, h3, h4) := blocks (Nat.div (length p) 64) H0 p in
  be_bytes 4 h0 ++ be_bytes 4 h1 ++ be_bytes 4 h2
    ++ be_bytes 4 h3 ++ be_bytes 4 h4.

End SHA1.

(** ** [base64.b64encode] (RFC 4648) *)

Definition b64_char (n : N) : byte :=
  if n <? 26 then byte_of_N (65 + n)
  else if n <? 52 then byte_of_N (97 + (n - 26))
  else if n <? 62 then byte_of_N (48 + (n - 52))
  else if n =? 62 then x2b
  else x2f.

Fixpoint b64encode (b : bytes) : bytes :=
  match b with
  | [] => []
  | [x] =>
      let x := Byte.to_N x in
      [b64_char (N.shiftr x 2);
       b64_char (N.shiftl (N.land x 3) 4); x3d; x3d]
  | [x; y] =>
      let x := Byte.to_N x in
      let y := Byte.to_N y in
      [b64_char (N.shiftr x 2);
       b64_char (N.lor (N.shiftl (N.land x 3) 4) (N.shiftr y 4));
       b64_char (N.shiftl (N.land y 15) 2); x3d]
  | x :: y :: z :: rest =>
      let x := Byte.to_N x in
      let y := Byte.to_N y in
      let z := Byte.to_N z in
      b64_char (N.shiftr x 2)
      :: b64_char (N.lor (N.shiftl (N.land x 3) 4) (N.shiftr y 4))
      :: b64_char (N.lor (N.shiftl (N.land y 15) 2) (N.shiftr z 6))
      :: b64_char (N.land z 63)
      :: b64encode rest
  end.

(** ** Constants of [WebSocketServer] *)

Definition CRLF : pystr := [13; 10].

Definition MAGIC : bytes :=
  bytes_of_string "258EAFA5-E914-47DA-95CA-C5AB0DC85B11".

Definition STR_HANDSHAKE : pystr :=
  str_of_string "HTTP/1.1 101 Web Socket Protocol Handshake" ++ CRLF
  ++ str_of_string "Upgrade: websocket" ++ CRLF
  ++ str_of_string "Connection: Upgrade" ++ CRLF
  ++ str_of_string "Sec-WebSocket-Accept: %s" ++ CRLF ++ CRLF.

Definition STR_REJECT : pystr :=
  str_of_string "HTTP/1.1 400 Bad Request" ++ CRLF ++ CRLF.

(** [fmt % arg] for one [str] argument: [%s] takes the argument, [%%] is a
    percent sign.  [used] tells whether the argument is already spent. *)
Fixpoint str_format_from (used : bool) (fmt arg : pystr) : result pystr :=
  match fmt with
  | [] => if used then Ok [] else Err TypeError
  | c :: rest =>
      if c =? 37 then
        match rest with
        | [] => Err ValueError
        | c2 :: rest2 =>
            if c2 =? 115 then
              if used then Err TypeError
              else r <- str_format_from true rest2 arg ;; Ok (arg ++ r)
            else if c2 =? 37 then
              r <- str_format_from used rest2 arg ;; Ok (37 :: r)
            else Err Unmodelled
        end
      else r <- str_format_from used rest arg ;; Ok (c :: r)
  end.

Definition str_format (fmt arg : pystr) : result pystr :=
  str_format_from false fmt arg.

(** ** Handshake *)

Definition key_token : bytes := bytes_of_string "Sec-WebSocket-Key".

(** The [for line in ...] loop of [handle_client]: the key of the first
    line that starts with the token, [None] when no line does. *)
Fixpoint find_client_key (lines : list bytes) : result (option bytes) :=
  match lines with
  | [] => Ok None
  | line :: rest =>
      if startswith line key_token then
        i <- bytes_index line [x3a] ;;
        Ok (Some (strip (skipn (i + 1) line)))
      else find_client_key rest
  end.

(** Lines 95-98: the bytes sent for a client key. *)
Definition handshake_response (client_key : bytes) : result bytes :=
  accept_key <-
    utf8_decode_ascii (b64encode (SHA1.digest (client_key ++ MAGIC))) ;;
  response <- str_format STR_HANDSHAKE accept_key ;;
  utf8_encode response.

Definition reject_response : result bytes := utf8_encode STR_REJECT.

(** ** Connection session *)

(** A connection handle; two handles are equal when they are the same
    socket object. *)
Definition conn := nat.

(** What a blocking [client.recv] gives: bytes (empty when the peer has
    gone), or an exception. *)
Inductive recv_result : Type :=
| RecvData (data : bytes)
| RecvError.

Inductive event : Type :=
| EPrint (s : pystr)
| ESend (data : bytes)
| EConnectCallback
| EMessageCallback (message : option bytes)
| EClose.

(** Program points of [handle_client]. *)
Inductive point : Type :=
| Handshaking    (* line 86, before the request is read *)
| Rejected       (* line 93, returned after the reject response *)
| Connected      (* line 101, upgrade response sent *)
| Registering    (* line 105, connect callback done *)
| Active         (* line 112, in the loop, before a read *)
| Closing        (* line 122, loop left *)
| Removed        (* line 125, removed from the registry *)
| Closed.        (* returned after [client.close()] *)

(** One session and what it shares: [clients] is the server's list,
    [net] what the socket will deliver, [exn] the exception that ended the
    thread, if any ([pc] then stays where it was raised). *)
Record session : Type := {
  pc : point;
  exn : option pyexn;
  clients : list conn;
  trace : list event;
  net : list recv_result
}.

Definition init (clients0 : list conn) (net0 : list recv_result) : session :=
  {| pc := Handshaking; exn := None; clients := clients0;
     trace := []; net := net0 |}.

Definition raise (e : pyexn) (s : session) : session :=
  {| pc := pc s; exn := Some e; clients := clients s;
     trace := trace s; net := net s |}.

Definition goto (p : point) (s : session) : session :=
  {| pc := p; exn := exn s; clients := clients s;
     trace := trace s; net := net s |}.

Definition emit (es : list event) (s : session) : session :=
  {| pc := pc s; exn := exn s; clients := clients s;
     trace := trace s ++ es; net := net s |}.

Definition set_clients (l : list conn) (s : session) : session :=
  {| pc := pc s; exn := exn s; clients := l;
     trace := trace s; net := net s |}.

Definition set_net (n : list recv_result) (s : session) : session :=
  {| pc := pc s; exn := exn s; clients := clients s;
     trace := trace s; net := n |}.

(** [list.remove(x)]: the first occurrence goes, [ValueError] when there
    is none. *)
Fixpoint list_remove (x : conn) (l : list conn) : result (list conn) :=
  match l with
  | [] => Err ValueError
  | y :: l' =>
      if Nat.eqb y x then Ok l'
      else r <- list_remove x l' ;; Ok (y :: r)
  end.

Definition not_found_message : pystr :=
  str_of_string "handle_client(): client key not found".

(** [handle_client] is modelled one program point at a time.  The socket's
    [send] and [close] are taken to succeed and the two callbacks to return
    without touching [self.clients]; the list operations run under
    [self.lock], so each is one step. *)
Section HandleClient.

(** [handle_client(self, client, client_connection_callback,
    client_message_callback)]; a callback is either supplied or [None]. *)
Variable client : conn.
Variable client_connection_callback : bool.
Variable client_message_callback : bool.

(** One step of the session from its program point; [None] when the
    thread has ended or is blocked in [recv] with nothing to read. *)
Definition step (s : session) : option session :=
  match exn s with
  | Some _ => None
  | None =>
      match pc s with
      | Handshaking =>
          match net s with
          | [] => None
          | RecvError :: rest => Some (raise OSError (set_net rest s))
          | RecvData data :: rest =>
              let s := set_net rest s in
              match find_client_key (splitlines data) with
              | Err e => Some (raise e s)
              | Ok None =>
                  match reject_response with
                  | Err e =>
                      Some (raise e (emit [EPrint not_found_message] s))
                  | Ok r =>
                      Some (goto Rejected
                              (emit [EPrint not_found_message; ESend r] s))
                  end
              | Ok (Some client_key) =>
                  match handshake_response client_key with
                  | Err e => Some (raise e s)
                  | Ok r => Some (goto Connected (emit [ESend r] s))
                  end
              end
          end
      | Rejected => None
      | Connected =>
          Some (goto Registering
                  (emit (if client_connection_callback
                         then [EConnectCallback] else []) s))
      | Registering =>
          Some (goto Active (set_clients (clients s ++ [client]) s))
      | Active =>
          match net s with
          | [] => None
          | RecvError :: rest => Some (set_net rest s)
          | RecvData data :: rest =>
              let s := set_net rest s in
              match decode_message (WBytes data) with
              | Err e => Some (raise e s)
              | Ok message =>
                  let s := emit (if client_message_callback
                                 then [EMessageCallback message]
                                 else []) s in
                  match message with
                  | None => Some (goto Closing s)
                  | Some _ => Some s
                  end
              end
          end
      | Closing =>
          match list_remove client (clients s) with
          | Err e => Some (raise e s)
          | Ok l => Some (goto Removed (set_clients l s))
          end
      | Removed => Some (goto Closed (emit [EClose] s))
      | Closed => None
      end
  end.

(** Run the session for at most [fuel] steps. *)
Fixpoint run (fuel : nat) (s : session) : session :=
  match fuel with
  | O => s
  | S fuel' =>
      match step s with
      | Some s' => run fuel' s'
      | None => s
      end
  end.

(** [handle_client] from its first line, for at most [fuel] steps. *)
Definition handle_client (fuel : nat) (clients0 : list conn)
    (net0 : list recv_result) : session :=
  run fuel (init clients0 net0).

(** The states a session passes through while other sessions add and
    remove their own handles in the shared list. *)
Inductive reachable : session -> Prop :=
| reach_init clients0 net0 :
    ~ In client clients0 -> reachable (init clients0 net0)
| reach_step s s' :
    reachable s -> step s = Some s' -> reachable s'
| reach_other_add s c :
    reachable s -> c <> client ->
    reachable (set_clients (clients s ++ [c]) s)
| reach_other_remove s c l :
    reachable s -> c <> client -> list_remove c (clients s) = Ok l ->
    reachable (set_clients l s).

End HandleClient.

(** ** Frames read off their bytes *)

(** Extended-length bytes that follow an indicator. *)
Definition ext_length_size (indicator : N) : nat :=
  if indicator =? 126 then 2%nat
  else if indicator =? 127 then 8%nat
  else 0%nat.

(** The 7-bit length indicator of a frame (low 7 bits of byte 1). *)
Definition length_indicator (message : bytes) : N :=
  match message with
  | _ :: b2 :: _ => N.land (Byte.to_N b2) 0x7F
  | _ => 0
  end.

(** Where the 4 mask bytes start: it depends on the indicator only. *)
Definition mask_offset (message : bytes) : nat :=
  if length_indicator message =? 126 then 4%nat
  else if length_indicator message =? 127 then 10%nat
  else 2%nat.

(** XOR of [data] with the mask bytes: the byte at position [i] (counted
    from [i0]) with mask byte [i mod 4]. *)
Fixpoint xor_from (masks : bytes) (i0 : nat) (data : bytes) : bytes :=
  match data with
  | [] => []
  | d :: rest =>
      byte_xor d (nth (Nat.modulo i0 4) masks x00) :: xor_from masks (S i0) rest
  end.

(** The fully unmasked payload: every byte after the 4 mask bytes, XOR-ed
    with the mask. *)
Definition unmasked_payload (message : bytes) : bytes :=
  let off := mask_offset message in
  xor_from (slice message off (off + 4)) 0 (skipn (off + 4) message).

(** The close payload is reported as "no message". *)
Definition close_filter (p : bytes) : option bytes :=
  if bytes_eqb p close_payload then None else Some p.

(** The length field [encode_bytes] emits for a payload of [n] bytes (lines
    146-156 of the source, on their own). *)
Definition length_field (n : N) : bytes :=
  if n <? 126 then [byte_of_N n]
  else if n <? 2 ^ 16 - 1 then x7e :: be_bytes 2 n
  else x7f :: be_bytes 8 n.

(** ** The flattened layout of a delta message *)

(** The first byte [encode_bytes] writes for a field: text or binary. *)
Definition field_ctl (p : payload) : byte :=
  match p with
  | PStr _ => x81
  | PBytes _ => x82
  end.

(** The bytes of a field: a [str] field is UTF-8 encoded. *)
Definition field_bytes (p : payload) : result bytes :=
  match p with
  | PStr s => utf8_encode s
  | PBytes b => Ok b
  end.

(** A field as (first byte, bytes). *)
Definition field : Type := byte * bytes.

Definition resolve (p : payload) : result field :=
  b <- field_bytes p ;; Ok (field_ctl p, b).

Definition resolve_pair (kv : payload * payload) : result (field * field) :=
  k <- resolve (fst kv) ;; v <- resolve (snd kv) ;; Ok (k, v).

(** A whole unmasked frame: first byte, length field, bytes. *)
Definition sub_frame (f : field) : bytes :=
  fst f :: length_field (len (snd f)) ++ snd f.

(** The payload of the frame [encode_message] builds for a delta. *)
Definition delta_layout (u : list (field * field)) (d : list field) : bytes :=
  be_bytes 4 (len u)
  ++ concat (map (fun kv => sub_frame (fst kv) ++ sub_frame (snd kv)) u)
  ++ be_bytes 4 (len d)
  ++ concat (map sub_frame d).

(** A field whose length fits the 64-bit length field. *)
Definition fits (f : field) : Prop := len (snd f) < 2 ^ 64.

(** ** Responses and requests on the wire *)

(** The fixed HTTP 101 upgrade response around an accept token, as bytes
    on the wire. *)
Definition upgrade_response (accept : bytes) : bytes :=
  bytes_of_string "HTTP/1.1 101 Web Socket Protocol Handshake" ++ [x0d; x0a]
  ++ bytes_of_string "Upgrade: websocket" ++ [x0d; x0a]
  ++ bytes_of_string "Connection: Upgrade" ++ [x0d; x0a]
  ++ bytes_of_string "Sec-WebSocket-Accept: " ++ accept
  ++ [x0d; x0a; x0d; x0a].

(** The fixed HTTP 400 reject response, as bytes on the wire. *)
Definition bad_request : bytes :=
  bytes_of_string "HTTP/1.1 400 Bad Request" ++ [x0d; x0a; x0d; x0a].

(** A code point or byte value below 128. *)
Definition is_ascii (c : N) : bool := c <? 128.

(** [sub in line] *)
Definition contains (line sub : bytes) : bool :=
  match bytes_index line sub with
  | Ok _ => true
  | Err _ => false
  end.

(** The sample opening handshake of RFC 6455. *)
Definition rfc_request : bytes :=
  bytes_of_string "GET /chat HTTP/1.1" ++ [x0d; x0a]
  ++ bytes_of_string "Host: server.example.com" ++ [x0d; x0a]
  ++ bytes_of_string "Upgrade: websocket" ++ [x0d; x0a]
  ++ bytes_of_string "Connection: Upgrade" ++ [x0d; x0a]
  ++ bytes_of_string "Sec-WebSocket-Key: dGhlIHNhbXBsZSBub25jZQ==" ++ [x0d; x0a]
  ++ bytes_of_string "Sec-WebSocket-Version: 13" ++ [x0d; x0a]
  ++ [x0d; x0a].

(** ** Program points of a session *)

(** The handshake has succeeded once the upgrade response is sent. *)
Definition handshake_succeeded (p : point) : bool :=
  match p with
  | Handshaking | Rejected => false
  | _ => true
  end.

(** The receive loop has been left. *)
Definition loop_exited (p : point) : bool :=
  match p with
  | Closing | Removed | Closed => true
  | _ => false
  end.

(** Between the registry add and the registry remove. *)
Definition registered (p : point) : bool :=
  match p with
  | Active | Closing => true
  | _ => false
  end.

(** The connect callback has been passed. *)
Definition past_connect (p : point) : bool :=
  match p with
  | Handshaking | Rejected | Connected => false
  | _ => true
  end.

(** The receive loop has been entered. *)
Definition loop_entered (p : point) : bool :=
  match p with
  | Active | Closing | Removed | Closed => true
  | _ => false
  end.

Definition is_connect_callback (e : event) : bool :=
  match e with
  | EConnectCallback => true
  | _ => false
  end.

Definition is_message_callback (e : event) : bool :=
  match e with
  | EMessageCallback _ => true
  | _ => false
  end.

(** The message callback invoked with "no message". *)
Definition is_close_callback (e : event) : bool :=
  match e with
  | EMessageCallback None => true
  | _ => false
  end.

(** What holds of a session at every program point: the handle is in the
    shared list once between the registry add and the registry remove, the
    connect callback has run once when it was supplied and has been passed,
    no message callback has run before the loop, and the message callback
    has seen "no message" once when it was supplied and the loop is left. *)
Definition session_inv (client : conn)
    (client_connection_callback client_message_callback : bool)
    (s : session) : Prop :=
  count_occ Nat.eq_dec (clients s) client
  = (if registered (pc s) then 1 else 0)%nat /\
  length (filter is_connect_callback (trace s))
  = (if client_connection_callback && past_connect (pc s) then 1 else 0)%nat /\
  (loop_entered (pc s) = false -> filter is_message_callback (trace s) = []) /\
  length (filter is_close_callback (trace s))
  = (if client_message_callback && loop_exited (pc s) then 1 else 0)%nat.

(** ** The specification's side *)

(** The client of a round trip, the reader of a delta layout, and the
    properties the specification states, worded as it words them. *)

(** A 4-byte masking key. *)
Definition mask_key : Type := byte * byte * byte * byte.

Definition key_bytes (k : mask_key) : bytes :=
  let '(k0, k1, k2, k3) := k in [k0; k1; k2; k3].

(** Modelled from the spec: the "added mask step to emulate a client" of
    the round-trip property, which is not part of the server's source.  It
    turns an unmasked frame into the masked frame a client would send: the
    mask bit of the second header byte is set, the length field is kept, the
    four key bytes are inserted after it and the payload is XOR-ed with the
    key. *)
Definition client_mask (k : mask_key) (frame : bytes) : bytes :=
  match frame with
  | b1 :: b2 :: rest =>
      let ext := ext_length_size (N.land (Byte.to_N b2) 0x7F) in
      b1 :: byte_of_N (N.lor (Byte.to_N b2) 0x80)
         :: firstn ext rest
         ++ key_bytes k
         ++ xor_from (key_bytes k) 0 (skipn ext rest)
  | _ => frame
  end.

(** Modelled from the spec: "parsing the flattened byte layout" of a delta,
    the receiving side, which is not part of the server's source.  A field
    is read as its first byte, its length field (by the indicator: the
    length itself, or 2 or 8 more bytes) and that many bytes. *)
Definition parse_field (buf : bytes) : option (field * bytes) :=
  match buf with
  | ctl :: b2 :: rest =>
      let indicator := N.land (Byte.to_N b2) 0x7F in
      let e := ext_length_size indicator in
      let n := if indicator <? 126 then indicator
               else be_value (firstn e rest) in
      let body := skipn e rest in
      if (length (firstn e rest) =? e)%nat && (n <=? len body)
      then Some ((ctl, firstn (N.to_nat n) body), skipn (N.to_nat n) body)
      else None
  | _ => None
  end.

(** Modelled from the spec: [count] fields in a row, and what is left. *)
Fixpoint parse_fields (count : nat) (buf : bytes)
  : option (list field * bytes) :=
  match count with
  | O => Some ([], buf)
  | S c =>
      match parse_field buf with
      | Some (f, buf) =>
          match parse_fields c buf with
          | Some (fs, buf) => Some (f :: fs, buf)
          | None => None
          end
      | None => None
      end
  end.

(** Modelled from the spec: [count] (key, value) pairs in a row. *)
Fixpoint parse_pairs (count : nat) (buf : bytes)
  : option (list (field * field) * bytes) :=
  match count with
  | O => Some ([], buf)
  | S c =>
      match parse_field buf with
      | Some (k, buf) =>
          match parse_field buf with
          | Some (v, buf) =>
              match parse_pairs c buf with
              | Some (kvs, buf) => Some ((k, v) :: kvs, buf)
              | None => None
              end
          | None => None
          end
      | None => None
      end
  end.

(** Modelled from the spec: a 4-byte big-endian count. *)
Definition parse_count (buf : bytes) : option (nat * bytes) :=
  if (length (firstn 4 buf) =? 4)%nat
  then Some (N.to_nat (be_value (firstn 4 buf)), skipn 4 buf)
  else None.

(** Modelled from the spec: the whole layout, with nothing left over. *)
Definition parse_delta (buf : bytes)
  : option (list (field * field) * list field) :=
  match parse_count buf with
  | Some (n, buf) =>
      match parse_pairs n buf with
      | Some (u, buf) =>
          match parse_count buf with
          | Some (m, buf) =>
              match parse_fields m buf with
              | Some (d, []) => Some (u, d)
              | _ => None
              end
          | None => None
          end
      | None => None
      end
  | None => None
  end.

(** The three-tier rule as the specification words it: the 16-bit tier for
    every length that fits 16 bits, the 64-bit tier only above 65535. *)
Definition spec_length_field (n : N) : bytes :=
  if n <? 126 then [byte_of_N n]
  else if n <=? 65535 then x7e :: be_bytes 2 n
  else x7f :: be_bytes 8 n.

(** The layout as the specification words it: each key and value is the
    length field (the one [encode_bytes] emits) followed by the bytes, and
    nothing else. *)
Definition length_prefixed (f : field) : bytes :=
  length_field (len (snd f)) ++ snd f.

Definition spec_delta_layout (u : list (field * field)) (d : list field)
  : bytes :=
  be_bytes 4 (len u)
  ++ concat (map (fun kv => length_prefixed (fst kv)
                            ++ length_prefixed (snd kv)) u)
  ++ be_bytes 4 (len d)
  ++ concat (map length_prefixed d).

(** The decoder's contract as the specification words it, for one input:
    "no message" exactly for an empty input or a close payload, and the
    unmasked payload for every other input. *)
Definition decode_contract (message : bytes) : Prop :=
  (decode_message (WBytes message) = Ok None <->
   message = [] \/ unmasked_payload message = close_payload) /\
  (~ (message = [] \/ unmasked_payload message = close_payload) ->
   decode_message (WBytes message) = Ok (Some (unmasked_payload message))).

(** The registry invariant as the specification words it. *)
Definition registry_contract (client : conn) (s : session) : Prop :=
  In client (clients s) <->
  handshake_succeeded (pc s) = true /\ loop_exited (pc s) = false.

(** One iteration of the receive loop as the specification words it: on
    "no message" the session goes to [Closing] and no callback runs; on a
    message the callback runs with it and the session stays [Active]. *)
Definition close_step_contract (s s' : session) (message : option bytes)
  : Prop :=
  match message with
  | None => pc s' = Closing /\ trace s' = trace s
  | Some m =>
      pc s' = Active /\ trace s' = trace s ++ [EMessageCallback (Some m)]
  end.

(** * The rest of the code *)

(** ** Listener: [__init__] and [serve_forever] *)

(** What a [handle_client] thread keeps to itself; the client list is the
    server's. *)
Record thread : Type := {
  t_pc : point;
  t_exn : option pyexn;
  t_trace : list event;
  t_net : list recv_result
}.

(** A server: [self.clients] and the threads [serve_forever] has started.
    The sockets [accept] returns are numbered in the order they come, so
    thread [c] serves socket [c].  The port and the listening socket hold
    nothing that the sessions read. *)
Record server : Type := {
  srv_clients : list conn;
  srv_threads : list thread
}.

(** [__init__]: an empty client list, no thread yet. *)
Definition server_init : server :=
  {| srv_clients := []; srv_threads := [] |}.

(** A thread's view: its own state and the shared list. *)
Definition join (l : list conn) (t : thread) : session :=
  {| pc := t_pc t; exn := t_exn t; clients := l;
     trace := t_trace t; net := t_net t |}.

Definition split (s : session) : thread :=
  {| t_pc := pc s; t_exn := exn s; t_trace := trace s; t_net := net s |}.

(** [l[i] = x] *)
Fixpoint list_set {A} (i : nat) (x : A) (l : list A) {struct l} : list A :=
  match l, i with
  | [], _ => []
  | _ :: l', O => x :: l'
  | y :: l', S i' => y :: list_set i' x l'
  end.

(** What happens next is the environment's and the scheduler's choice:
    a connection arrives (with what its socket will deliver), or one of
    the threads runs up to its next program point. *)
Inductive action : Type :=
| Accept (net0 : list recv_result)
| Run (c : conn).

Section ServeForever.

(** [serve_forever(self, client_connection_callback,
    client_message_callback)] *)
Variable client_connection_callback : bool.
Variable client_message_callback : bool.

(** One turn of the server: the body of the [while True] loop for
    [Accept], a step of [handle_client] in its thread for [Run]. *)
Definition server_step (s : server) (a : action) : server :=
  match a with
  | Accept net0 =>
      {| srv_clients := srv_clients s;
         srv_threads := srv_threads s ++ [split (init [] net0)] |}
  | Run c =>
      match nth_error (srv_threads s) c with
      | None => s
      | Some t =>
          match step c client_connection_callback client_message_callback
                     (join (srv_clients s) t) with
          | None => s
          | Some s' =>
              {| srv_clients := clients s';
                 srv_threads := list_set c (split s') (srv_threads s) |}
          end
      end
  end.

(** The server after a schedule of arrivals and thread steps. *)
Definition serve_forever (schedule : list action) : server :=
  fold_left server_step schedule server_init.

End ServeForever.

(** A thread whose handle is in the client list by its program point. *)
Definition thread_registered (s : server) (c : conn) : bool :=
  match nth_error (srv_threads s) c with
  | Some t => registered (t_pc t)
  | None => false
  end.

(** Every thread keeps its session invariant against the shared list, and
    the list holds no handle without a thread. *)
Definition server_inv (cb mcb : bool) (s : server) : Prop :=
  (forall c t, nth_error (srv_threads s) c = Some t ->
               session_inv c cb mcb (join (srv_clients s) t)) /\
  (forall c, (length (srv_threads s) <= c)%nat ->
             count_occ Nat.eq_dec (srv_clients s) c = 0%nat).

(** ** Reads of a session *)

(** A read the loop goes on after: a failed read, or bytes that decode to
    a message. *)
Definition keeps_active (r : recv_result) : bool :=
  match r with
  | RecvError => true
  | RecvData data =>
      match decode_message (WBytes data) with
      | Ok (Some _) => true
      | _ => false
      end
  end.

(** The messages a list of reads delivers, in order. *)
Fixpoint messages_of (reads : list recv_result) : list (option bytes) :=
  match reads with
  | [] => []
  | RecvError :: rest => messages_of rest
  | RecvData data :: rest =>
      match decode_message (WBytes data) with
      | Ok m => m :: messages_of rest
      | Err _ => messages_of rest
      end
  end.

(** The handles of the other sessions, in the order of the list. *)
Definition others (client : conn) (l : list conn) : list conn :=
  filter (fun c => negb (Nat.eqb c client)) l.

(** ** robot_part_1.py: [RobotController] *)

Module RobotController.

(** What [run] can raise. *)
Inductive ctl_exn : Type :=
| KeyError (key : string)
| AssertionError.

(** How a bounded run of [run] ends. *)
Inductive outcome (A : Type) : Type :=
| Returned (a : A)
| Raised (e : ctl_exn)
| Running.                (* still in the loop when the fuel ran out *)
Arguments Returned {A} a.
Arguments Raised {A} e.
Arguments Running {A}.

(** The simulator and numpy are not part of the source: arrays, gains, the
    simulator state and their operations are an interface. *)
Class Env : Type := {
  array : Type;
  gain : Type;
  sim : Type;
  sub : array -> array -> array;            (* [a - b] *)
  scale : gain -> array -> array;           (* [k * a] *)
  norm_below : array -> bool;     (* [np.linalg.norm(a) < 1e-3] *)
  get_joint_positions : sim -> array;
  get_joint_velocities : sim -> array;
  set_joint_accelerations : sim -> array -> sim;
  sim_step : sim -> sim                     (* [simulator.step()] *)
}.

Section Controller.

Context {E : Env}.

(** The fields [__init__] sets; [pd_gains] is a dict. *)
Record controller : Type := {
  simulator : sim;
  pd_gains : string -> option gain;
  joint_position_goal : array;
  error : option array
}.

Definition __init__ (simulator0 : sim) (pd_gains0 : string -> option gain)
    (joint_position_goal0 : array) : controller :=
  {| simulator := simulator0; pd_gains := pd_gains0;
     joint_position_goal := joint_position_goal0; error := None |}.

(** [self.pd_gains[key]] *)
Definition getitem (c : controller) (key : string) : ctl_exn + gain :=
  match pd_gains c key with
  | Some g => inr g
  | None => inl (KeyError key)
  end.

Definition update_control (c : controller) : ctl_exn + controller :=
  match getitem c "kp" with
  | inl e => inl e
  | inr kp =>
      match getitem c "kd" with
      | inl e => inl e
      | inr kd =>
          let error0 :=
            sub (joint_position_goal c)
                (get_joint_positions (simulator c)) in
          let velocity := get_joint_velocities (simulator c) in
          let joint_acceleration :=
            sub (scale kp error0) (scale kd velocity) in
          inr {| simulator :=
                   set_joint_accelerations (simulator c) joint_acceleration;
                 pd_gains := pd_gains c;
                 joint_position_goal := joint_position_goal c;
                 error := Some error0 |}
      end
  end.

Definition is_done (c : controller) : bool :=
  match error c with
  | None => false
  | Some e => norm_below e
  end.

(** [self.simulator.step()] *)
Definition step_simulator (c : controller) : controller :=
  {| simulator := sim_step (simulator c); pd_gains := pd_gains c;
     joint_position_goal := joint_position_goal c; error := error c |}.

(** [run], for at most [fuel] turns of its loop; the lines it prints at
    the end are left out. *)
Fixpoint run (fuel : nat) (c : controller) : outcome controller :=
  if is_done c then
    match error c with
    | None => Raised AssertionError       (* [assert self.error is not None] *)
    | Some _ => Returned c
    end
  else
    match fuel with
    | O => Running
    | S fuel' =>
        match update_control c with
        | inl e => Raised e
        | inr c' => run fuel' (step_simulator c')
        end
    end.

(** One turn of the loop when both gains are there. *)
Definition turn (kp kd : gain) (c : controller) : controller :=
  let error0 :=
    sub (joint_position_goal c) (get_joint_positions (simulator c)) in
  {| simulator :=
       sim_step
         (set_joint_accelerations (simulator c)
            (sub (scale kp error0)
                 (scale kd (get_joint_velocities (simulator c)))));
     pd_gains := pd_gains c;
     joint_position_goal := joint_position_goal c;
     error := Some error0 |}.

Fixpoint turns (kp kd : gain) (n : nat) (c : controller) : controller :=
  match n with
  | O => c
  | S n' => turns kp kd n' (turn kp kd c)
  end.

End Controller.

(** A one-joint simulator on whole numbers, to run the controller on: the
    position moves by the acceleration set, the velocity reads zero. *)
Definition toy_env : Env :=
  {| array := N; gain := N; sim := N;
     sub := N.sub; scale := N.mul;
     norm_below := fun e => e <? 1;
     get_joint_positions := fun s => s;
     get_joint_velocities := fun _ => 0;
     set_joint_accelerations := N.add;
     sim_step := fun s => s |}.

Definition toy_gains (key : string) : option N :=
  if String.eqb key "kp" then Some 1
  else if String.eqb key "kd" then Some 0
  else None.

End RobotController.
(** * Properties *)

(** ** Bytes and XOR *)

Lemma to_N_lt (b : byte) : Byte.to_N b < 256.
Proof. pose proof (Byte.to_N_bounded b). lia. Qed.

Lemma to_N_byte_of_N (n : N) : Byte.to_N (byte_of_N n) = n mod 256.
Proof.
  unfold byte_of_N.
  destruct (Byte.of_N (n mod 256)) as [b|] eqn:E.
  - now apply Byte.to_of_N.
  - apply Byte.of_N_None_iff in E.
    pose proof (N.mod_lt n 256). lia.
Qed.

Lemma byte_of_N_to_N (b : byte) : byte_of_N (Byte.to_N b) = b.
Proof.
  unfold byte_of_N.
  rewrite N.mod_small by apply to_N_lt.
  now rewrite Byte.of_to_N.
Qed.

Lemma lxor_mod_pow2 (a b n : N) :
  N.lxor (a mod 2 ^ n) (b mod 2 ^ n) = (N.lxor a b) mod 2 ^ n.
Proof.
  apply N.bits_inj. intros i.
  rewrite N.lxor_spec.
  destruct (N.lt_ge_cases i n) as [Hi|Hi].
  - rewrite !N.mod_pow2_bits_low by assumption. now rewrite N.lxor_spec.
  - now rewrite !N.mod_pow2_bits_high by assumption.
Qed.

Lemma to_N_byte_xor (a b : byte) :
  Byte.to_N (byte_xor a b) = N.lxor (Byte.to_N a) (Byte.to_N b).
Proof.
  unfold byte_xor. rewrite to_N_byte_of_N.
  change 256 with (2 ^ 8).
  rewrite <- lxor_mod_pow2.
  now rewrite !N.mod_small by (change (2 ^ 8) with 256; apply to_N_lt).
Qed.

(** XOR-ing twice with the same mask byte is the identity. *)
Lemma byte_xor_involutive (a k : byte) : byte_xor (byte_xor a k) k = a.
Proof.
  unfold byte_xor at 1. rewrite to_N_byte_xor.
  rewrite N.lxor_assoc, N.lxor_nilpotent, N.lxor_0_r.
  apply byte_of_N_to_N.
Qed.

Lemma xor_from_length masks i data :
  length (xor_from masks i data) = length data.
Proof.
  revert i. induction data as [|d rest IH]; intros i; simpl; [reflexivity|].
  now rewrite IH.
Qed.

(** Masking twice with the same key, at the same alignment, is the
    identity. *)
Lemma xor_from_involutive masks i data :
  xor_from masks i (xor_from masks i data) = data.
Proof.
  revert i. induction data as [|d rest IH]; intros i; simpl; [reflexivity|].
  now rewrite byte_xor_involutive, IH.
Qed.

(** ** Lists, slices and indexing *)

Lemma index_ok {A} (l : list A) i d :
  (i < length l)%nat -> index l i = Ok (nth i l d).
Proof.
  intros H. unfold index. now rewrite (nth_error_nth' l d H).
Qed.

Lemma skipn_nth_cons {A} (l : list A) j d :
  (j < length l)%nat -> skipn j l = nth j l d :: skipn (S j) l.
Proof.
  revert j. induction l as [|a l IH]; intros j H; simpl in H; [lia|].
  destruct j as [|j]; [reflexivity|].
  simpl. apply IH. lia.
Qed.

Lemma slice_length_full {A} (l : list A) a b :
  (b <= length l)%nat -> length (slice l a b) = (b - a)%nat.
Proof.
  intros H. unfold slice. rewrite length_firstn, length_skipn. lia.
Qed.

Lemma bytes_eqb_eq a b : bytes_eqb a b = true <-> a = b.
Proof.
  unfold bytes_eqb. destruct (list_eq_dec Byte.byte_eq_dec a b); split;
    congruence.
Qed.

Lemma close_filter_None p : close_filter p = None <-> p = close_payload.
Proof.
  unfold close_filter. destruct (bytes_eqb p close_payload) eqn:E.
  - apply bytes_eqb_eq in E. split; congruence.
  - split; [discriminate|]. intros ->.
    assert (bytes_eqb close_payload close_payload = true)
      by now apply bytes_eqb_eq.
    congruence.
Qed.

Lemma close_filter_Some p : p <> close_payload -> close_filter p = Some p.
Proof.
  intros H. destruct (close_filter p) eqn:E.
  - unfold close_filter in E. destruct (bytes_eqb p close_payload); congruence.
  - now apply close_filter_None in E.
Qed.

(** ** The decoder in closed form *)

(** The list comprehension of [decode_message] never indexes out of range
    when the mask slice is full, and computes [xor_from]. *)
Lemma decode_comprehension (message masks : bytes) (k i j : nat) :
  (j + k <= length message)%nat ->
  ((0 < k)%nat -> length masks = 4%nat) ->
  mapM (fun '((i, j) : nat * nat) =>
          mj <- index message j ;;
          mk <- index masks (Nat.modulo i 4) ;;
          Ok (byte_xor mj mk))
       (combine (seq i k) (seq j k))
  = Ok (xor_from masks i (firstn k (skipn j message))).
Proof.
  revert i j. induction k as [|k IH]; intros i j Hj Hm; [reflexivity|].
  cbn [seq combine mapM].
  rewrite (index_ok message j x00) by lia.
  cbn [bind].
  rewrite (index_ok masks (Nat.modulo i 4) x00).
  2:{ rewrite Hm by lia. apply Nat.mod_upper_bound. discriminate. }
  cbn [bind].
  rewrite IH by (try lia; intros _; apply Hm; lia).
  cbn [bind].
  rewrite (skipn_nth_cons message j x00) by lia.
  reflexivity.
Qed.

Lemma decode_message_frame (message : bytes) :
  (2 <= length message)%nat ->
  decode_message (WBytes message)
  = Ok (close_filter (unmasked_payload message)).
Proof.
  destruct message as [|b1 [|b2 rest]]; cbn [length]; try lia. intros _.
  unfold decode_message, unmasked_payload, mask_offset, length_indicator.
  change (slice (b1 :: b2 :: rest) 0 2) with [b1; b2].
  cbn [unpack_BB bind].
  set (message := b1 :: b2 :: rest).
  set (off := if N.land (Byte.to_N b2) 0x7F =? 126 then 4%nat
              else if N.land (Byte.to_N b2) 0x7F =? 127 then 10%nat
              else 2%nat).
  unfold enumerate_range.
  destruct (Nat.le_gt_cases (length message) (off + 4)) as [Hs|Hl].
  - (* no payload byte at all *)
    replace (length message - (off + 4))%nat with 0%nat by lia.
    rewrite skipn_all2 by lia.
    reflexivity.
  - unfold close_filter.
    rewrite (decode_comprehension message
               (slice message off (off + 4))) by
      (try lia; intros _; rewrite slice_length_full; lia).
    cbn [bind].
    rewrite firstn_all2 by (rewrite length_skipn; lia).
    now destruct (bytes_eqb _ close_payload).
Qed.

(** ** [struct.pack] *)

Lemma pack_be_ok width n :
  n < 2 ^ (8 * N.of_nat width) -> pack_be width n = Ok (be_bytes width n).
Proof.
  intros H. unfold pack_be.
  now rewrite (proj2 (N.ltb_lt _ _) H).
Qed.

Lemma pack_be_err width n :
  2 ^ (8 * N.of_nat width) <= n -> pack_be width n = Err StructError.
Proof.
  intros H. unfold pack_be.
  now rewrite (proj2 (N.ltb_ge _ _) H).
Qed.

Lemma le_bytes_length width n : length (le_bytes width n) = width.
Proof.
  revert n. induction width as [|w IH]; intros n; simpl; [reflexivity|].
  now rewrite IH.
Qed.

Lemma be_bytes_length width n : length (be_bytes width n) = width.
Proof. unfold be_bytes. now rewrite length_rev, le_bytes_length. Qed.

Lemma pack_B_ok n : n < 256 -> pack_B n = Ok [byte_of_N n].
Proof. intros H. unfold pack_B. now rewrite pack_be_ok. Qed.

Lemma pack_BH_ok h : h < 65536 -> pack_BH 126 h = Ok (x7e :: be_bytes 2 h).
Proof.
  intros H. unfold pack_BH.
  rewrite (pack_be_ok 1 126) by reflexivity.
  cbn [bind]. now rewrite (pack_be_ok 2 h).
Qed.

Lemma pack_BQ_ok q :
  q < 2 ^ 64 -> pack_BQ 127 q = Ok (x7f :: be_bytes 8 q).
Proof.
  intros H. unfold pack_BQ.
  rewrite (pack_be_ok 1 127) by reflexivity.
  cbn [bind]. now rewrite (pack_be_ok 8 q).
Qed.

(** ** The encoder in closed form *)

Lemma encode_bytes_PBytes (m : bytes) :
  len m < 2 ^ 64 ->
  encode_bytes (PBytes m) = Ok (x82 :: length_field (len m) ++ m).
Proof.
  intros H. unfold encode_bytes, length_field. cbn [bind].
  change (pack_B (N.lor 128 2)) with (Ok (A:=bytes) [x82]). cbn [bind].
  destruct (len m <? 126) eqn:E1.
  - apply N.ltb_lt in E1. rewrite pack_B_ok by lia. reflexivity.
  - destruct (len m <? 2 ^ 16 - 1) eqn:E2.
    + apply N.ltb_lt in E2. change (2 ^ 16 - 1) with 65535 in E2.
      rewrite pack_BH_ok by lia. reflexivity.
    + rewrite pack_BQ_ok by assumption. reflexivity.
Qed.

(** Payloads that [len] cannot pack in 64 bits do not exist in CPython;
    in the embedding they are a [struct.error]. *)
Lemma encode_bytes_too_long (m : bytes) :
  2 ^ 64 <= len m -> encode_bytes (PBytes m) = Err StructError.
Proof.
  intros H. unfold encode_bytes. cbn [bind].
  change (pack_B (N.lor 128 2)) with (Ok (A:=bytes) [x82]). cbn [bind].
  assert (H64 : 2 ^ 64 = 18446744073709551616) by reflexivity.
  rewrite (proj2 (N.ltb_ge (len m) 126)) by lia.
  rewrite (proj2 (N.ltb_ge (len m) (2 ^ 16 - 1)))
    by (change (2 ^ 16 - 1) with 65535; lia).
  unfold pack_BQ. rewrite (pack_be_ok 1 127) by reflexivity. cbn [bind].
  now rewrite (pack_be_err 8 (len m)) by exact H.
Qed.

Lemma encode_bytes_PStr (s : pystr) (m : bytes) :
  utf8_encode s = Ok m ->
  len m < 2 ^ 64 ->
  encode_bytes (PStr s) = Ok (x81 :: length_field (len m) ++ m).
Proof.
  intros Hs H. unfold encode_bytes, length_field. rewrite Hs. cbn [bind].
  change (pack_B (N.lor 128 1)) with (Ok (A:=bytes) [x81]). cbn [bind].
  destruct (len m <? 126) eqn:E1.
  - apply N.ltb_lt in E1. rewrite pack_B_ok by lia. reflexivity.
  - destruct (len m <? 2 ^ 16 - 1) eqn:E2.
    + apply N.ltb_lt in E2. change (2 ^ 16 - 1) with 65535 in E2.
      rewrite pack_BH_ok by lia. reflexivity.
    + rewrite pack_BQ_ok by assumption. reflexivity.
Qed.

(** [encode_message] frames text as binary: the [str] is encoded to
    [bytes] before [encode_bytes] inspects its type. *)
Lemma encode_message_MBytes (m : bytes) :
  encode_message (MBytes m) = encode_bytes (PBytes m).
Proof. reflexivity. Qed.

Lemma encode_message_MStr (s : pystr) (m : bytes) :
  utf8_encode s = Ok m ->
  encode_message (MStr s) = encode_bytes (PBytes m).
Proof. intros H. unfold encode_message. now rewrite H. Qed.

(** ** The client mask step against the decoder *)

Lemma indicator_mask_bit (b2 : byte) :
  N.land (Byte.to_N (byte_of_N (N.lor (Byte.to_N b2) 0x80))) 0x7F
  = N.land (Byte.to_N b2) 0x7F.
Proof. destruct b2; reflexivity. Qed.

Lemma key_bytes_length k : length (key_bytes k) = 4%nat.
Proof. now destruct k as [[[k0 k1] k2] k3]. Qed.

Lemma mask_offset_ext b1 b2 rest :
  mask_offset (b1 :: b2 :: rest)
  = (2 + ext_length_size (N.land (Byte.to_N b2) 0x7F))%nat.
Proof.
  unfold mask_offset, ext_length_size, length_indicator.
  destruct (_ =? 126); [reflexivity|]. now destruct (_ =? 127).
Qed.

(** Decoding a masked frame gives back what followed the length field. *)
Lemma client_mask_decodes (k : mask_key) (b1 b2 : byte) (rest : bytes) :
  (ext_length_size (N.land (Byte.to_N b2) 0x7F) <= length rest)%nat ->
  decode_message (WBytes (client_mask k (b1 :: b2 :: rest)))
  = Ok (close_filter
          (skipn (ext_length_size (N.land (Byte.to_N b2) 0x7F)) rest)).
Proof.
  intros Hext. cbn [client_mask].
  set (ext := ext_length_size (N.land (Byte.to_N b2) 0x7F)) in *.
  rewrite decode_message_frame by (cbn [length]; lia).
  unfold unmasked_payload.
  rewrite mask_offset_ext, indicator_mask_bit. fold ext.
  set (hd := firstn ext rest).
  assert (Hhd : length hd = ext) by (unfold hd; rewrite length_firstn; lia).
  assert (Hsk : forall tl : bytes,
             skipn (2 + ext) (b1 :: byte_of_N (N.lor (Byte.to_N b2) 0x80)
                                 :: hd ++ tl) = tl).
  { intros tl. cbn [Nat.add skipn].
    rewrite skipn_app, Hhd, Nat.sub_diag, skipn_all2 by lia. reflexivity. }
  unfold slice.
  replace (2 + ext + 4 - (2 + ext))%nat with 4%nat by lia.
  replace (2 + ext + 4)%nat with (4 + (2 + ext))%nat by lia.
  rewrite <- (skipn_skipn 4 (2 + ext)), !Hsk.
  rewrite firstn_app, key_bytes_length, Nat.sub_diag, firstn_O, app_nil_r.
  rewrite firstn_all2 by (rewrite key_bytes_length; lia).
  rewrite skipn_app, key_bytes_length, Nat.sub_diag.
  rewrite skipn_all2 by (rewrite key_bytes_length; lia).
  cbn [skipn app].
  now rewrite xor_from_involutive.
Qed.

Lemma length_field_cases (n : N) :
  exists b2 ext,
    length_field n = b2 :: ext /\
    length ext = ext_length_size (N.land (Byte.to_N b2) 0x7F).
Proof.
  unfold length_field.
  destruct (n <? 126) eqn:E1.
  - apply N.ltb_lt in E1. exists (byte_of_N n), []. split; [reflexivity|].
    rewrite to_N_byte_of_N, N.mod_small by lia.
    change 0x7F with (N.ones 7). rewrite N.land_ones.
    change (2 ^ 7) with 128. rewrite N.mod_small by lia.
    unfold ext_length_size.
    rewrite (proj2 (N.eqb_neq n 126)) by lia.
    now rewrite (proj2 (N.eqb_neq n 127)) by lia.
  - destruct (n <? 2 ^ 16 - 1).
    + exists x7e, (be_bytes 2 n). split; [reflexivity|].
      now rewrite be_bytes_length.
    + exists x7f, (be_bytes 8 n). split; [reflexivity|].
      now rewrite be_bytes_length.
Qed.

(** Encode, mask, decode: every payload but the close payload comes back. *)
Lemma round_trip_bytes (k : mask_key) (m : bytes) :
  len m < 2 ^ 64 ->
  exists frame,
    encode_bytes (PBytes m) = Ok frame /\
    frame = x82 :: length_field (len m) ++ m /\
    decode_message (WBytes (client_mask k frame)) = Ok (close_filter m).
Proof.
  intros H. eexists. split; [now apply encode_bytes_PBytes|].
  split; [reflexivity|].
  destruct (length_field_cases (len m)) as (b2 & ext & -> & Hext).
  cbn [app]. rewrite client_mask_decodes by (rewrite length_app; lia).
  rewrite <- Hext, skipn_app, Nat.sub_diag, skipn_all2 by lia.
  reflexivity.
Qed.

(** ** Round trip (C1) *)

Lemma len_close_payload : len close_payload = 2.
Proof. reflexivity. Qed.

(** C1.  Round trip: for every text or binary payload [m] whose byte length
    is one of 0, 1, 125, 126, 65535, 65536, encoding it with
    [encode_message], masking the frame as a client would (any 4-byte key,
    mask bit set) and decoding the result with [decode_message] gives back
    [m] exactly (for text, its UTF-8 bytes); the frame is the binary header
    byte, the length field of the tier of [len m], and the payload. *)
Theorem round_trip_tiers (k : mask_key) (m : bytes) :
  In (len m) [0; 1; 125; 126; 65535; 65536] ->
  (exists frame,
      encode_message (MBytes m) = Ok frame /\
      frame = x82 :: length_field (len m) ++ m /\
      decode_message (WBytes (client_mask k frame)) = Ok (Some m)) /\
  (forall s : pystr,
      utf8_encode s = Ok m ->
      exists frame,
        encode_message (MStr s) = Ok frame /\
        frame = x82 :: length_field (len m) ++ m /\
        decode_message (WBytes (client_mask k frame)) = Ok (Some m)).
Proof.
  intros Hin.
  assert (Hlen : len m < 2 ^ 64).
  { change (2 ^ 64) with 18446744073709551616.
    cbn [In] in Hin. lia. }
  assert (Hnc : close_filter m = Some m).
  { apply close_filter_Some. intros ->.
    rewrite len_close_payload in Hin. cbn [In] in Hin. lia. }
  destruct (round_trip_bytes k m Hlen) as (frame & Henc & Hfr & Hdec).
  rewrite Hnc in Hdec.
  split.
  - exists frame. now rewrite encode_message_MBytes.
  - intros s Hs. exists frame. now rewrite (encode_message_MStr s m Hs).
Qed.

Lemma round_trip_tiers_witness :
  (exists frame,
      encode_message (MBytes [x48]) = Ok frame /\
      frame = x82 :: length_field (len [x48]) ++ [x48] /\
      decode_message (WBytes (client_mask (x37, xfa, x21, x3d) frame))
      = Ok (Some [x48])) /\
  (exists frame,
      encode_message (MStr [0x48]) = Ok frame /\
      frame = x82 :: length_field (len [x48]) ++ [x48] /\
      decode_message (WBytes (client_mask (x37, xfa, x21, x3d) frame))
      = Ok (Some [x48])).
Proof.
  assert (H : In (len [x48]) [0; 1; 125; 126; 65535; 65536])
    by (vm_compute; right; left; reflexivity).
  split.
  - exact (proj1 (round_trip_tiers (x37, xfa, x21, x3d) [x48] H)).
  - apply (proj2 (round_trip_tiers (x37, xfa, x21, x3d) [x48] H) [0x48]).
    reflexivity.
Defined.

(** The round trip at the two largest lengths. *)
Example round_trip_65535_65536 :
  decode_message
    (WBytes (client_mask (x37, xfa, x21, x3d)
               (x82 :: length_field 65535 ++ repeat x41 (N.to_nat 65535))))
  = Ok (Some (repeat x41 (N.to_nat 65535))) /\
  decode_message
    (WBytes (client_mask (x37, xfa, x21, x3d)
               (x82 :: length_field 65536 ++ repeat x41 (N.to_nat 65536))))
  = Ok (Some (repeat x41 (N.to_nat 65536))).
Proof.
  assert (L : forall n, len (repeat x41 (N.to_nat n)) = n)
    by (intros n; unfold len; now rewrite repeat_length, N2Nat.id).
  split.
  - destruct (round_trip_bytes (x37, xfa, x21, x3d)
                (repeat x41 (N.to_nat 65535))) as (f & _ & -> & H);
      [rewrite L; reflexivity|].
    rewrite L in H. rewrite H. apply f_equal, close_filter_Some.
    intros E. apply (f_equal (@length byte)) in E.
    rewrite repeat_length in E. discriminate E.
  - destruct (round_trip_bytes (x37, xfa, x21, x3d)
                (repeat x41 (N.to_nat 65536))) as (f & _ & -> & H);
      [rewrite L; reflexivity|].
    rewrite L in H. rewrite H. apply f_equal, close_filter_Some.
    intros E. apply (f_equal (@length byte)) in E.
    rewrite repeat_length in E. discriminate E.
Qed.

(** The six lengths of the round trip reach all three tiers of the length
    field. *)
Example tiers_of_round_trip_lengths :
  map length_field [0; 1; 125; 126; 65535; 65536]
  = [[x00]; [x01]; [x7d];
     [x7e; x00; x7e];
     [x7f; x00; x00; x00; x00; x00; x00; xff; xff];
     [x7f; x00; x00; x00; x00; x00; x01; x00; x00]].
Proof. reflexivity. Qed.

(** ** Length-field tiers (C2) *)

(** Away from 65535 the emitted length field is the three-tier rule. *)
Lemma length_field_three_tiers (n : N) :
  n <> 65535 -> length_field n = spec_length_field n.
Proof.
  intros H. unfold length_field, spec_length_field.
  destruct (n <? 126); [reflexivity|].
  change (2 ^ 16 - 1) with 65535.
  destruct (N.ltb_spec n 65535), (N.leb_spec n 65535); try reflexivity; lia.
Qed.

(** C2.  The three-tier rule says a 65535-byte payload, whose length fits
    16 bits, gets marker 126 and a 2-byte length; [encode_bytes] emits
    marker 127 and an 8-byte length for it. *)
Theorem encode_bytes_65535_uses_64_bit_tier :
  let m := repeat x00 (N.to_nat 65535) in
  encode_bytes (PBytes m)
  = Ok ([x82; x7f; x00; x00; x00; x00; x00; x00; xff; xff] ++ m) /\
  spec_length_field (len m) = [x7e; xff; xff] /\
  encode_bytes (PBytes m) <> Ok (x82 :: spec_length_field (len m) ++ m).
Proof.
  intros m.
  assert (Hlen : len m = 65535).
  { unfold m, len. now rewrite repeat_length, N2Nat.id. }
  assert (Henc : encode_bytes (PBytes m)
                 = Ok ([x82; x7f; x00; x00; x00; x00; x00; x00; xff; xff]
                         ++ m)).
  { rewrite encode_bytes_PBytes by (rewrite Hlen; reflexivity).
    now rewrite Hlen. }
  split; [exact Henc|]. rewrite Hlen.
  split; [reflexivity|].
  rewrite Henc. change (spec_length_field 65535) with [x7e; xff; xff].
  cbn [app]. discriminate.
Qed.

(** ** The decoder: close payload, ignored fields, short input (C5, C9, C10) *)

Lemma decode_contract_frame (message : bytes) :
  (2 <= length message)%nat -> decode_contract message.
Proof.
  intros H. unfold decode_contract.
  rewrite decode_message_frame by assumption.
  assert (Hne : message <> []) by (intros ->; cbn in H; lia).
  split.
  - split.
    + intros E. right. apply close_filter_None. congruence.
    + intros [E|E]; [contradiction|].
      f_equal. now apply close_filter_None.
  - intros Hn. f_equal. apply close_filter_Some. tauto.
Qed.

Lemma decode_contract_empty : decode_contract [].
Proof.
  unfold decode_contract. cbn [decode_message]. split.
  - split; [now left | reflexivity].
  - intros H. exfalso. apply H. now left.
Qed.

(** The unmasked payload does not depend on the first header byte. *)
Lemma unmasked_payload_header (b1 b2 : byte) (rest : bytes) :
  unmasked_payload (b1 :: b2 :: rest)
  = let e := ext_length_size (N.land (Byte.to_N b2) 0x7F) in
    xor_from (firstn 4 (skipn e rest)) 0 (skipn (e + 4) rest).
Proof.
  unfold unmasked_payload, slice. rewrite mask_offset_ext.
  cbv zeta.
  set (e := ext_length_size (N.land (Byte.to_N b2) 0x7F)).
  replace (2 + e + 4 - (2 + e))%nat with 4%nat by lia.
  reflexivity.
Qed.

(** C5, as stated, fails: a one-byte input is neither empty nor a close
    payload, yet its payload is not returned: unpacking the header raises
    [struct.error]. *)
Lemma decode_contract_fails_on_one_byte : ~ decode_contract [x81].
Proof.
  unfold decode_contract. intros [_ H].
  assert (E : decode_message (WBytes [x81])
              = Ok (Some (unmasked_payload [x81]))).
  { apply H. intros [E|E]; discriminate E. }
  discriminate E.
Qed.

(** C5, amended.  For an absent input, an empty input, or an input of at
    least two bytes, [decode_message] returns "no message" if and only if
    the input is empty or absent or its fully unmasked payload is the two
    bytes 03 E9, whatever the opcode bits; every other such input's payload
    is returned as its unmasked byte sequence. *)
Theorem decode_close_payload_iff (message : bytes) :
  length message <> 1%nat ->
  decode_message WNone = Ok None /\
  decode_contract message /\
  (forall b1 b1' rest,
      message = b1 :: rest ->
      decode_message (WBytes (b1' :: rest)) = decode_message (WBytes message)).
Proof.
  intros H. split; [reflexivity|]. split.
  - destruct message as [|b1 [|b2 rest]].
    + apply decode_contract_empty.
    + cbn in H. lia.
    + apply decode_contract_frame. cbn [length]. lia.
  - intros b1 b1' rest ->.
    destruct rest as [|b2 rest]; [cbn in H; lia|].
    rewrite !decode_message_frame by (cbn [length]; lia).
    now rewrite !unmasked_payload_header.
Qed.

Lemma decode_close_payload_iff_witness :
  decode_message WNone = Ok None /\
  decode_contract [x88; x82; x01; x02; x03; x04; x02; xeb] /\
  (forall b1 b1' rest,
      [x88; x82; x01; x02; x03; x04; x02; xeb] = b1 :: rest ->
      decode_message (WBytes (b1' :: rest))
      = decode_message (WBytes [x88; x82; x01; x02; x03; x04; x02; xeb])).
Proof.
  apply (decode_close_payload_iff [x88; x82; x01; x02; x03; x04; x02; xeb]).
  simpl. lia.
Defined.

(** C9.  [decode_message] never reads the numeric value of the extended
    length: for every input of at least two bytes (so for every input long
    enough to reach the mask) the result is the XOR-unmasked run of all
    bytes after the 4 mask bytes, whose position depends on the indicator
    only; two frames that differ only in the extended-length bytes decode
    alike. *)
Theorem decode_ignores_extended_length :
  (forall message : bytes,
      (2 <= length message)%nat ->
      decode_message (WBytes message)
      = Ok (close_filter (unmasked_payload message))) /\
  (forall (b1 b2 : byte) (ext ext' rest : bytes),
      length ext = ext_length_size (N.land (Byte.to_N b2) 0x7F) ->
      length ext' = length ext ->
      decode_message (WBytes (b1 :: b2 :: ext ++ rest))
      = decode_message (WBytes (b1 :: b2 :: ext' ++ rest))).
Proof.
  split; [exact decode_message_frame|].
  intros b1 b2 ext ext' rest He He'.
  rewrite !decode_message_frame by (cbn [length]; lia).
  unfold unmasked_payload, slice.
  rewrite !mask_offset_ext, <- He.
  assert (Hsk : forall (e : bytes) n,
             length e = length ext ->
             skipn (2 + length ext + n) (b1 :: b2 :: e ++ rest)
             = skipn n rest).
  { intros e n Hl.
    replace (2 + length ext + n)%nat with (n + (2 + length ext))%nat by lia.
    rewrite <- (skipn_skipn n (2 + length ext)).
    cbn [Nat.add skipn].
    rewrite skipn_app, Hl, Nat.sub_diag, (skipn_all2 e) by lia.
    reflexivity. }
  pose proof (Hsk ext 0%nat eq_refl) as H0.
  pose proof (Hsk ext' 0%nat He') as H0'.
  rewrite Nat.add_0_r in H0, H0'.
  rewrite H0, H0', (Hsk ext 4%nat eq_refl), (Hsk ext' 4%nat He').
  reflexivity.
Qed.

Lemma decode_ignores_extended_length_witness :
  decode_message
    (WBytes ([x82; xfe] ++ [x00; x05] ++ [x01; x02; x03; x04; x10; x20]))
  = Ok (close_filter
          (unmasked_payload
             ([x82; xfe] ++ [x00; x05] ++ [x01; x02; x03; x04; x10; x20]))) /\
  decode_message
    (WBytes ([x82; xfe] ++ [x00; x05] ++ [x01; x02; x03; x04; x10; x20]))
  = decode_message
      (WBytes ([x82; xfe] ++ [xff; xff] ++ [x01; x02; x03; x04; x10; x20])).
Proof.
  split.
  - apply (proj1 decode_ignores_extended_length). simpl. lia.
  - apply (proj2 decode_ignores_extended_length x82 xfe [x00; x05] [xff; xff]);
      reflexivity.
Defined.

(** The mask slice is full whenever a payload byte exists. *)
Lemma mask_slice_full (message : bytes) :
  (mask_offset message + 4 < length message)%nat ->
  length (slice message (mask_offset message) (mask_offset message + 4))
  = 4%nat.
Proof. intros H. rewrite slice_length_full; lia. Qed.

(** C10.  [decode_message] is not total on short input: on every one-byte
    input the unpacking of the two-byte header raises [struct.error],
    whereas the empty input gives "no message"; an input of two or more
    bytes never fails, the mask slice being full whenever a payload byte
    exists. *)
Theorem decode_one_byte_raises :
  (forall b : byte, decode_message (WBytes [b]) = Err StructError) /\
  decode_message (WBytes []) = Ok None /\
  (forall message : bytes,
      (2 <= length message)%nat ->
      (exists r, decode_message (WBytes message) = Ok r) /\
      ((mask_offset message + 4 < length message)%nat ->
       length (slice message (mask_offset message) (mask_offset message + 4))
       = 4%nat)).
Proof.
  split; [reflexivity|]. split; [reflexivity|].
  intros message H. split.
  - eexists. now apply decode_message_frame.
  - apply mask_slice_full.
Qed.

Lemma decode_one_byte_raises_witness :
  (exists r, decode_message (WBytes [x82; x81; x01; x02; x03; x04; x49]) = Ok r)
  /\ length (slice [x82; x81; x01; x02; x03; x04; x49]
               (mask_offset [x82; x81; x01; x02; x03; x04; x49])
               (mask_offset [x82; x81; x01; x02; x03; x04; x49] + 4))
     = 4%nat.
Proof.
  assert (H : (2 <= length [x82; x81; x01; x02; x03; x04; x49])%nat)
    by (simpl; lia).
  split.
  - exact (proj1 (proj2 (proj2 decode_one_byte_raises) _ H)).
  - apply (proj2 (proj2 (proj2 decode_one_byte_raises) _ H)).
    simpl. lia.
Defined.

(** ** Big-endian fields read back *)

Lemma be_value_rev (l : bytes) :
  be_value (rev l) = fold_right (fun x acc => acc * 256 + Byte.to_N x) 0 l.
Proof.
  unfold be_value.
  rewrite <- (rev_involutive l) at 2.
  now rewrite (fold_left_rev_right (fun x acc => acc * 256 + Byte.to_N x)).
Qed.

Lemma pow2_bytes_succ (w : nat) :
  2 ^ (8 * N.of_nat (S w)) = 256 * 2 ^ (8 * N.of_nat w).
Proof.
  replace (8 * N.of_nat (S w)) with (8 + 8 * N.of_nat w) by lia.
  now rewrite N.pow_add_r.
Qed.

Lemma be_value_be_bytes (w : nat) (n : N) :
  n < 2 ^ (8 * N.of_nat w) -> be_value (be_bytes w n) = n.
Proof.
  unfold be_bytes. rewrite be_value_rev.
  revert n. induction w as [|w IH]; intros n H.
  - cbn in H. cbn. lia.
  - cbn [le_bytes fold_right].
    rewrite pow2_bytes_succ in H.
    rewrite IH by (apply N.Div0.div_lt_upper_bound; lia).
    rewrite to_N_byte_of_N.
    pose proof (N.div_mod n 256). lia.
Qed.

Lemma land_127_small (n : N) : n < 128 -> N.land n 0x7F = n.
Proof.
  intros H. change 0x7F with (N.ones 7). rewrite N.land_ones.
  apply N.mod_small. exact H.
Qed.

(** The length field tells its reader the length it was made from. *)
Lemma length_field_reads (n : N) :
  n < 2 ^ 64 ->
  exists b2 ext,
    length_field n = b2 :: ext /\
    length ext = ext_length_size (N.land (Byte.to_N b2) 0x7F) /\
    (if N.land (Byte.to_N b2) 0x7F <? 126 then N.land (Byte.to_N b2) 0x7F
     else be_value ext) = n.
Proof.
  intros H64. unfold length_field.
  destruct (n <? 126) eqn:E1.
  - apply N.ltb_lt in E1. exists (byte_of_N n), [].
    rewrite to_N_byte_of_N, N.mod_small by lia.
    rewrite land_127_small by lia.
    split; [reflexivity|]. split.
    + unfold ext_length_size.
      rewrite (proj2 (N.eqb_neq n 126)) by lia.
      now rewrite (proj2 (N.eqb_neq n 127)) by lia.
    + now rewrite (proj2 (N.ltb_lt n 126)) by lia.
  - destruct (n <? 2 ^ 16 - 1) eqn:E2.
    + apply N.ltb_lt in E2. change (2 ^ 16 - 1) with 65535 in E2.
      exists x7e, (be_bytes 2 n). split; [reflexivity|].
      split; [now rewrite be_bytes_length|].
      change (N.land (Byte.to_N x7e) 0x7F <? 126) with false. cbv iota.
      apply be_value_be_bytes. change (2 ^ (8 * N.of_nat 2)) with 65536. lia.
    + exists x7f, (be_bytes 8 n). split; [reflexivity|].
      split; [now rewrite be_bytes_length|].
      change (N.land (Byte.to_N x7f) 0x7F <? 126) with false. cbv iota.
      apply be_value_be_bytes. exact H64.
Qed.

Lemma firstn_len_app {A} (a b : list A) : firstn (length a) (a ++ b) = a.
Proof.
  rewrite firstn_app, Nat.sub_diag, firstn_O, app_nil_r.
  now rewrite firstn_all.
Qed.

Lemma skipn_len_app {A} (a b : list A) : skipn (length a) (a ++ b) = b.
Proof.
  rewrite skipn_app, Nat.sub_diag, skipn_all. reflexivity.
Qed.

(** ** Parsing a delta layout *)

Lemma parse_field_sub_frame (f : field) (rest : bytes) :
  len (snd f) < 2 ^ 64 ->
  parse_field (sub_frame f ++ rest) = Some (f, rest).
Proof.
  destruct f as [ctl b]. cbn [fst snd]. intros H.
  unfold sub_frame. cbn [fst snd].
  destruct (length_field_reads (len b) H) as (b2 & ext & -> & He & Hn).
  cbn [app parse_field].
  set (ind := N.land (Byte.to_N b2) 0x7F) in *.
  rewrite <- !app_assoc, <- He.
  rewrite firstn_len_app, skipn_len_app, Hn, Nat.eqb_refl.
  cbn [andb].
  assert (Hle : (len b <=? len (b ++ rest)) = true).
  { apply N.leb_le. unfold len. rewrite length_app. lia. }
  rewrite Hle. unfold len. rewrite Nat2N.id.
  now rewrite firstn_len_app, skipn_len_app.
Qed.

Lemma parse_fields_layout (d : list field) (rest : bytes) :
  Forall fits d ->
  parse_fields (length d) (concat (map sub_frame d) ++ rest) = Some (d, rest).
Proof.
  induction 1 as [|f d Hf _ IH]; [reflexivity|].
  cbn [length map concat parse_fields].
  rewrite <- app_assoc, parse_field_sub_frame by exact Hf.
  now rewrite IH.
Qed.

Lemma parse_pairs_layout (u : list (field * field)) (rest : bytes) :
  Forall (fun kv => fits (fst kv) /\ fits (snd kv)) u ->
  parse_pairs (length u)
    (concat (map (fun kv => sub_frame (fst kv) ++ sub_frame (snd kv)) u)
       ++ rest)
  = Some (u, rest).
Proof.
  induction 1 as [|[k v] u [Hk Hv] _ IH]; [reflexivity|].
  cbn [length map concat parse_pairs fst snd].
  rewrite <- !app_assoc, parse_field_sub_frame by exact Hk.
  rewrite parse_field_sub_frame by exact Hv.
  now rewrite IH.
Qed.

Lemma parse_count_be_bytes (n : N) (rest : bytes) :
  n < 2 ^ 32 ->
  parse_count (be_bytes 4 n ++ rest) = Some (N.to_nat n, rest).
Proof.
  intros H. unfold parse_count.
  pose proof (be_bytes_length 4 n) as Hl.
  pose proof (be_value_be_bytes 4 n H) as Hv.
  destruct (be_bytes 4 n) as [|a [|b [|c [|d [|x l]]]]]; try discriminate Hl.
  cbn [app firstn skipn length Nat.eqb]. now rewrite Hv.
Qed.

Lemma parse_delta_layout u d :
  len u < 2 ^ 32 -> len d < 2 ^ 32 ->
  Forall (fun kv => fits (fst kv) /\ fits (snd kv)) u ->
  Forall fits d ->
  parse_delta (delta_layout u d) = Some (u, d).
Proof.
  intros Hu Hd Fu Fd. unfold parse_delta, delta_layout.
  rewrite parse_count_be_bytes by exact Hu.
  unfold len at 1. rewrite Nat2N.id.
  rewrite parse_pairs_layout by exact Fu.
  rewrite parse_count_be_bytes by exact Hd.
  unfold len at 1. rewrite Nat2N.id.
  rewrite <- (app_nil_r (concat (map sub_frame d))).
  now rewrite parse_fields_layout by exact Fd.
Qed.

(** ** Delta messages (C7) *)

Lemma mapM_cons_ok {A B} (f : A -> result B) a l u :
  mapM f (a :: l) = Ok u ->
  exists b bs, f a = Ok b /\ mapM f l = Ok bs /\ u = b :: bs.
Proof.
  cbn [mapM]. destruct (f a) as [b|]; [|discriminate]. cbn [bind].
  destruct (mapM f l) as [bs|]; [|discriminate]. cbn [bind].
  intros [= <-]. now exists b, bs.
Qed.

Lemma mapM_length {A B} (f : A -> result B) l u :
  mapM f l = Ok u -> length u = length l.
Proof.
  revert u. induction l as [|a l IH]; intros u H.
  - now injection H as <-.
  - apply mapM_cons_ok in H as (b & bs & _ & Hl & ->).
    cbn [length]. now rewrite (IH bs).
Qed.

Lemma encode_bytes_resolve (p : payload) (f : field) :
  resolve p = Ok f -> fits f -> encode_bytes p = Ok (sub_frame f).
Proof.
  unfold resolve, fits. destruct p as [s|b]; cbn [field_bytes field_ctl].
  - destruct (utf8_encode s) as [m|] eqn:E; [|discriminate]. cbn [bind].
    intros [= <-]. cbn [snd]. intros H.
    now rewrite (encode_bytes_PStr s m E H).
  - cbn [bind]. intros [= <-]. cbn [snd]. intros H.
    now rewrite encode_bytes_PBytes.
Qed.

Lemma encode_updates_layout (update : list (payload * payload)) :
  forall (acc : bytes) (u : list (field * field)),
    mapM resolve_pair update = Ok u ->
    Forall (fun kv => fits (fst kv) /\ fits (snd kv)) u ->
    encode_updates acc update
    = Ok (acc ++ concat (map (fun kv => sub_frame (fst kv)
                                        ++ sub_frame (snd kv)) u)).
Proof.
  induction update as [|[key val] update IH]; intros acc u Hm Hf.
  - injection Hm as <-. cbn. now rewrite app_nil_r.
  - apply mapM_cons_ok in Hm as ([k v] & u' & Hkv & Hm & ->).
    inversion Hf as [|? ? [Hk Hv] Hf']; subst.
    unfold resolve_pair in Hkv. cbn [fst snd] in *.
    destruct (resolve key) as [k'|] eqn:Ek; [|discriminate].
    destruct (resolve val) as [v'|] eqn:Ev; [|discriminate].
    cbn [bind] in Hkv. injection Hkv as -> ->.
    cbn [encode_updates].
    rewrite (encode_bytes_resolve key k Ek Hk). cbn [bind].
    rewrite (encode_bytes_resolve val v Ev Hv). cbn [bind].
    rewrite (IH _ u' Hm Hf').
    cbn [map concat fst snd]. now rewrite <- !app_assoc.
Qed.

Lemma encode_deletes_layout (delete : list payload) :
  forall (acc : bytes) (d : list field),
    mapM resolve delete = Ok d ->
    Forall fits d ->
    encode_deletes acc delete = Ok (acc ++ concat (map sub_frame d)).
Proof.
  induction delete as [|key delete IH]; intros acc d Hm Hf.
  - injection Hm as <-. cbn. now rewrite app_nil_r.
  - apply mapM_cons_ok in Hm as (k & d' & Hk & Hm & ->).
    inversion Hf as [|? ? Hfk Hf']; subst.
    cbn [encode_deletes].
    rewrite (encode_bytes_resolve key k Hk Hfk). cbn [bind].
    rewrite (IH _ d' Hm Hf').
    cbn [map concat]. now rewrite <- !app_assoc.
Qed.

Lemma concat_In_length {A} (g : A -> bytes) (l : list A) (x : A) :
  In x l -> (length (g x) <= length (concat (map g l)))%nat.
Proof.
  induction l as [|a l IH]; [contradiction|].
  cbn [map concat]. rewrite length_app.
  intros [->|H]; [lia|]. specialize (IH H). lia.
Qed.

Lemma sub_frame_length (f : field) :
  (length (snd f) <= length (sub_frame f))%nat.
Proof. unfold sub_frame. cbn [length]. rewrite length_app. lia. Qed.

(** Every field of a layout that fits 64 bits fits 64 bits. *)
Lemma bounded_part (a b c e n : nat) :
  N.of_nat (a + (b + (c + e))) < 18446744073709551616 ->
  (n <= b \/ n <= e)%nat ->
  N.of_nat n < 18446744073709551616.
Proof. lia. Qed.

Lemma layout_fits u d :
  len (delta_layout u d) < 2 ^ 64 ->
  Forall (fun kv => fits (fst kv) /\ fits (snd kv)) u /\ Forall fits d.
Proof.
  unfold delta_layout, len, fits. rewrite !length_app.
  change (2 ^ 64) with 18446744073709551616. intros H.
  split; apply Forall_forall.
  - intros kv Hin.
    pose proof (concat_In_length
                  (fun kv => sub_frame (fst kv) ++ sub_frame (snd kv))
                  u kv Hin) as Hl.
    cbv beta in Hl. rewrite length_app in Hl.
    pose proof (sub_frame_length (fst kv)).
    pose proof (sub_frame_length (snd kv)).
    unfold len, field, bytes in *.
    split; apply (bounded_part _ _ _ _ _ H); left; lia.
  - intros f Hin.
    pose proof (concat_In_length sub_frame d f Hin) as Hl.
    pose proof (sub_frame_length f).
    unfold len, field, bytes in *.
    apply (bounded_part _ _ _ _ _ H). right. lia.
Qed.

(** C7, as stated, fails: each key and value is written by [encode_bytes]
    as a whole frame, so a first byte (82 for [bytes], 81 for [str])
    precedes every length field; the layout of the claim has none. *)
Lemma delta_fields_are_whole_frames :
  encode_message (MDelta [(PBytes [x6b], PBytes [x76])] [])
  = Ok ([x82; x0e] ++ [x00; x00; x00; x01] ++ [x82; x01; x6b]
          ++ [x82; x01; x76] ++ [x00; x00; x00; x00]) /\
  spec_delta_layout [((x82, [x6b]), (x82, [x76]))] []
  = [x00; x00; x00; x01] ++ [x01; x6b] ++ [x01; x76] ++ [x00; x00; x00; x00] /\
  encode_message (MDelta [(PBytes [x6b], PBytes [x76])] [])
  <> Ok (x82 :: length_field
                  (len (spec_delta_layout [((x82, [x6b]), (x82, [x76]))] []))
             ++ spec_delta_layout [((x82, [x6b]), (x82, [x76]))] []).
Proof.
  split; [reflexivity|]. split; [reflexivity|]. discriminate.
Qed.

(** C7, amended.  For every delta message whose pair and key counts fit 32
    bits, [encode_message] flattens it as the 4-byte big-endian pair count,
    then for each pair the key and the value each as a whole unmasked frame
    of [encode_bytes] (first byte 82 for [bytes] and 81 for [str], then the
    length field, then the bytes), then the 4-byte big-endian count of
    delete keys and each delete key as such a frame, in the original order,
    and frames this payload as one binary (opcode 2) frame; parsing that
    layout back gives the counts and the exact fields in order. *)
Theorem delta_encoding
    (update : list (payload * payload)) (delete : list payload)
    (u : list (field * field)) (d : list field) :
  mapM resolve_pair update = Ok u ->
  mapM resolve delete = Ok d ->
  len update < 2 ^ 32 ->
  len delete < 2 ^ 32 ->
  len (delta_layout u d) < 2 ^ 64 ->
  encode_message (MDelta update delete)
  = Ok (x82 :: length_field (len (delta_layout u d)) ++ delta_layout u d) /\
  parse_delta (delta_layout u d) = Some (u, d).
Proof.
  intros Hu Hd Hnu Hnd H64.
  destruct (layout_fits u d H64) as [Fu Fd].
  assert (Lu : len u = len update)
    by (unfold len; now rewrite (mapM_length _ _ _ Hu)).
  assert (Ld : len d = len delete)
    by (unfold len; now rewrite (mapM_length _ _ _ Hd)).
  split.
  - unfold encode_message.
    unfold pack_L. rewrite !pack_be_ok by assumption. cbn [bind].
    rewrite (encode_updates_layout update _ u Hu Fu). cbn [bind].
    rewrite (encode_deletes_layout delete _ d Hd Fd). cbn [bind].
    rewrite <- Lu, <- Ld.
    replace ((be_bytes 4 (len u) ++ _) ++ _) with (delta_layout u d)
      by (unfold delta_layout; now rewrite <- !app_assoc).
    now apply encode_bytes_PBytes.
  - apply parse_delta_layout; try assumption; congruence.
Qed.

Lemma delta_encoding_witness :
  encode_message
    (MDelta [(PBytes [x6b; x31], PBytes [x76; x31]);
             (PStr (str_of_string "k2"), PBytes [x76; x32])]
            [PBytes [x6b; x33]])
  = Ok (x82 :: length_field 28
          ++ [x00; x00; x00; x02]
          ++ [x82; x02; x6b; x31] ++ [x82; x02; x76; x31]
          ++ [x81; x02; x6b; x32] ++ [x82; x02; x76; x32]
          ++ [x00; x00; x00; x01]
          ++ [x82; x02; x6b; x33]) /\
  parse_delta
    ([x00; x00; x00; x02]
       ++ [x82; x02; x6b; x31] ++ [x82; x02; x76; x31]
       ++ [x81; x02; x6b; x32] ++ [x82; x02; x76; x32]
       ++ [x00; x00; x00; x01]
       ++ [x82; x02; x6b; x33])
  = Some ([((x82, [x6b; x31]), (x82, [x76; x31]));
           ((x81, [x6b; x32]), (x82, [x76; x32]))],
          [(x82, [x6b; x33])]).
Proof.
  generalize
    (delta_encoding
       [(PBytes [x6b; x31], PBytes [x76; x31]);
        (PStr (str_of_string "k2"), PBytes [x76; x32])]
       [PBytes [x6b; x33]]
       [((x82, [x6b; x31]), (x82, [x76; x31]));
        ((x81, [x6b; x32]), (x82, [x76; x32]))]
       [(x82, [x6b; x33])]
       eq_refl eq_refl eq_refl eq_refl eq_refl).
  vm_compute. intros H. exact H.
Defined.

(** ** The shared client list *)

Lemma list_remove_count (x y : conn) (l l' : list conn) :
  list_remove x l = Ok l' ->
  count_occ Nat.eq_dec l y
  = (count_occ Nat.eq_dec l' y + if Nat.eq_dec x y then 1 else 0)%nat.
Proof.
  revert l'. induction l as [|z l IH]; intros l' H; [discriminate|].
  cbn [list_remove] in H. destruct (Nat.eqb_spec z x) as [->|Hzx].
  - injection H as <-. cbn [count_occ]. destruct (Nat.eq_dec x y); lia.
  - destruct (list_remove x l) as [r|]; [|discriminate].
    cbn [bind] in H. injection H as <-.
    cbn [count_occ]. rewrite (IH r eq_refl).
    destruct (Nat.eq_dec z y), (Nat.eq_dec x y); lia.
Qed.

Lemma list_remove_In (x : conn) (l : list conn) :
  In x l -> exists l', list_remove x l = Ok l'.
Proof.
  induction l as [|z l IH]; [contradiction|].
  intros H. cbn [list_remove]. destruct (Nat.eqb_spec z x) as [->|Hzx].
  - now exists l.
  - destruct H as [->|H]; [contradiction|].
    destruct (IH H) as (l' & ->). now exists (z :: l').
Qed.

Lemma count_occ_snoc (l : list conn) (c y : conn) :
  count_occ Nat.eq_dec (l ++ [c]) y
  = (count_occ Nat.eq_dec l y + if Nat.eq_dec c y then 1 else 0)%nat.
Proof. rewrite count_occ_app. cbn [count_occ]. reflexivity. Qed.

(** ** Session invariant *)

Ltac break_step H :=
  repeat match type of H with
         | context [match ?x with _ => _ end] => destruct x eqn:?
         end;
  try discriminate H.

Lemma session_inv_init client cb mcb clients0 net0 :
  ~ In client clients0 -> session_inv client cb mcb (init clients0 net0).
Proof.
  intros H. unfold session_inv, init. cbn.
  rewrite !andb_false_r. repeat split.
  now apply count_occ_not_In.
Qed.

Lemma session_inv_step client cb mcb s s' :
  session_inv client cb mcb s ->
  step client cb mcb s = Some s' ->
  session_inv client cb mcb s'.
Proof.
  intros (Hc & Hk & Hm & Hx) H. unfold session_inv.
  destruct s as [p e cl tr nt]. unfold step in H. cbn [exn pc net] in H.
  cbn [pc clients trace] in Hc, Hk, Hm, Hx.
  destruct e; [discriminate|].
  destruct p; break_step H; injection H as <-;
    cbn [pc clients trace raise goto emit set_clients set_net
         registered past_connect loop_entered loop_exited] in *;
    rewrite ?andb_false_r, ?andb_true_r in *;
    rewrite ?filter_app, ?length_app, ?app_nil_r in *;
    cbn [filter is_connect_callback is_message_callback is_close_callback
         length app] in *;
    rewrite ?Hm by reflexivity;
    repeat split; try assumption; try discriminate; try lia;
    try (intros _; reflexivity).
  - (* registry add *)
    rewrite count_occ_snoc, Hc. destruct (Nat.eq_dec client client); lia.
  - (* registry remove *)
    match goal with
    | E : list_remove _ _ = Ok _ |- _ =>
        rewrite (list_remove_count _ client _ _ E) in Hc
    end.
    destruct (Nat.eq_dec client client); lia.
Qed.

Lemma session_inv_reachable client cb mcb s :
  reachable client cb mcb s -> session_inv client cb mcb s.
Proof.
  induction 1 as [clients0 net0 H | s s' _ IH Hs
                 | s c _ IH Hc | s c l _ IH Hc Hl].
  - now apply session_inv_init.
  - exact (session_inv_step _ _ _ _ _ IH Hs).
  - destruct IH as (H1 & H2 & H3 & H4). unfold session_inv.
    destruct s as [p e cl tr nt]. cbn [pc clients trace set_clients] in *.
    repeat split; try assumption.
    rewrite count_occ_snoc, H1.
    destruct (Nat.eq_dec c client); [contradiction|lia].
  - destruct IH as (H1 & H2 & H3 & H4). unfold session_inv.
    destruct s as [p e cl tr nt]. cbn [pc clients trace set_clients] in *.
    repeat split; try assumption.
    rewrite (list_remove_count _ client _ _ Hl) in H1.
    destruct (Nat.eq_dec c client); [contradiction|lia].
Qed.

Lemma reachable_run client cb mcb fuel s :
  reachable client cb mcb s ->
  reachable client cb mcb (run client cb mcb fuel s).
Proof.
  revert s. induction fuel as [|fuel IH]; intros s H; [exact H|].
  cbn [run]. destruct (step client cb mcb s) as [s'|] eqn:E; [|exact H].
  apply IH. exact (reach_step _ _ _ _ _ H E).
Qed.

Lemma reachable_handle_client client cb mcb fuel clients0 net0 :
  ~ In client clients0 ->
  reachable client cb mcb (handle_client client cb mcb fuel clients0 net0).
Proof.
  intros H. unfold handle_client. now apply reachable_run, reach_init.
Qed.

(** The message callback sees "no message" once, on the way out of the
    loop, and not before. *)
Lemma close_callback_once client cb mcb s :
  reachable client cb mcb s ->
  length (filter is_close_callback (trace s))
  = (if mcb && loop_exited (pc s) then 1 else 0)%nat.
Proof.
  intros Hr. now destruct (session_inv_reachable _ _ _ _ Hr) as (_ & _ & _ & H).
Qed.

(** At [Closing] the handle is in the list, so [clients.remove] does not
    raise. *)
Lemma closing_removes client cb mcb s :
  reachable client cb mcb s -> pc s = Closing -> exn s = None ->
  exists l, step client cb mcb s
            = Some (goto Removed (set_clients l s)) /\
            ~ In client l.
Proof.
  intros Hr Hp He.
  destruct (session_inv_reachable _ _ _ _ Hr) as (Hc & _ & _).
  rewrite Hp in Hc. cbn [registered] in Hc.
  assert (Hin : In client (clients s)).
  { apply (count_occ_In Nat.eq_dec). lia. }
  destruct (list_remove_In _ _ Hin) as (l & Hl).
  exists l. split.
  - unfold step. now rewrite He, Hp, Hl.
  - rewrite (list_remove_count _ client _ _ Hl) in Hc.
    destruct (Nat.eq_dec client client); [|contradiction].
    apply (count_occ_not_In Nat.eq_dec). lia.
Qed.

(** ** Registry invariant (C3) *)

(** C3, as stated, fails: while the connect callback runs the handshake
    has succeeded and the loop has not been left, yet the handle is not in
    the registry: the add comes after the callback. *)
Lemma registry_contract_fails_during_connect_callback :
  let s := handle_client 5%nat true true 1%nat [] [RecvData rfc_request] in
  reachable 5%nat true true s /\
  pc s = Connected /\ exn s = None /\ clients s = [] /\
  ~ registry_contract 5%nat s.
Proof.
  assert (E : exists r,
             handle_client 5%nat true true 1%nat [] [RecvData rfc_request]
             = {| pc := Connected; exn := None; clients := [];
                  trace := [ESend r]; net := [] |})
    by (vm_compute; eexists; reflexivity).
  destruct E as (r & E). cbv zeta.
  split.
  - apply reachable_handle_client. intros [].
  - rewrite E. cbn [pc exn clients].
    repeat split. unfold registry_contract. cbn [pc clients].
    intros [_ H]. apply H. now split.
Qed.

(** C3, amended.  At every point of a session that has raised no
    exception, the connection is in the client registry if and only if its
    registry add has run and its registry remove has not; it is there at
    most once.  The add is the step after the connect callback, which has
    been invoked exactly once, when one was supplied, by the time it is
    passed, and no message callback runs before the receive loop; the
    remove is the first step after the loop is left, and the socket close
    the step after it. *)
Theorem registry_membership (client : conn) (cb mcb : bool) (s : session) :
  reachable client cb mcb s ->
  exn s = None ->
  (In client (clients s) <-> registered (pc s) = true) /\
  (count_occ Nat.eq_dec (clients s) client <= 1)%nat /\
  length (filter is_connect_callback (trace s))
  = (if cb && past_connect (pc s) then 1 else 0)%nat /\
  (loop_entered (pc s) = false -> filter is_message_callback (trace s) = []) /\
  (pc s = Registering ->
   step client cb mcb s
   = Some (goto Active (set_clients (clients s ++ [client]) s))) /\
  (pc s = Closing ->
   exists l, step client cb mcb s = Some (goto Removed (set_clients l s))
             /\ ~ In client l) /\
  (pc s = Removed ->
   step client cb mcb s = Some (goto Closed (emit [EClose] s))).
Proof.
  intros Hr He.
  destruct (session_inv_reachable _ _ _ _ Hr) as (Hc & Hk & Hm & _).
  split; [|split; [|split; [|split; [|split; [|split]]]]].
  - rewrite (count_occ_In Nat.eq_dec), Hc.
    destruct (registered (pc s)); split; intros; try lia; congruence.
  - rewrite Hc. destruct (registered (pc s)); lia.
  - exact Hk.
  - exact Hm.
  - intros Hp. unfold step. now rewrite He, Hp.
  - intros Hp. now apply closing_removes.
  - intros Hp. unfold step. now rewrite He, Hp.
Qed.

Lemma registry_membership_witness :
  let s := handle_client 5%nat true true 3%nat [7%nat] [RecvData rfc_request] in
  (In 5%nat (clients s) <-> registered (pc s) = true) /\
  (count_occ Nat.eq_dec (clients s) 5%nat <= 1)%nat /\
  length (filter is_connect_callback (trace s))
  = (if true && past_connect (pc s) then 1 else 0)%nat /\
  (loop_entered (pc s) = false -> filter is_message_callback (trace s) = []) /\
  (pc s = Registering ->
   step 5%nat true true s
   = Some (goto Active (set_clients (clients s ++ [5%nat]) s))) /\
  (pc s = Closing ->
   exists l, step 5%nat true true s = Some (goto Removed (set_clients l s))
             /\ ~ In 5%nat l) /\
  (pc s = Removed ->
   step 5%nat true true s = Some (goto Closed (emit [EClose] s))).
Proof.
  apply (registry_membership 5%nat true true
           (handle_client 5%nat true true 3%nat [7%nat]
              [RecvData rfc_request])).
  - apply reachable_handle_client. simpl. lia.
  - vm_compute. reflexivity.
Defined.

(** ** Handshake: strings on the wire *)

Lemma mapM_ok_map {A B} (f : A -> result B) (g : A -> B) (l : list A) :
  (forall a, In a l -> f a = Ok (g a)) -> mapM f l = Ok (map g l).
Proof.
  induction l as [|a l IH]; intros H; [reflexivity|].
  cbn [mapM map]. rewrite (H a (or_introl eq_refl)). cbn [bind].
  rewrite IH by (intros b Hb; apply H; now right). reflexivity.
Qed.

Lemma utf8_encode_ascii (s : pystr) :
  forallb is_ascii s = true -> utf8_encode s = Ok (map byte_of_N s).
Proof.
  intros H. unfold utf8_encode.
  rewrite (mapM_ok_map _ (fun c => [byte_of_N c])).
  - cbn [bind]. f_equal. induction s as [|c s IH]; [reflexivity|].
    cbn [map concat app]. f_equal. apply IH.
    cbn [forallb] in H. now apply andb_prop in H.
  - intros c Hc. rewrite forallb_forall in H. specialize (H c Hc).
    unfold utf8_encode_char. unfold is_ascii in H.
    change 0x80 with 128. now rewrite H.
Qed.

Lemma utf8_decode_ascii_ok (b : bytes) :
  forallb is_ascii (map Byte.to_N b) = true ->
  utf8_decode_ascii b = Ok (map Byte.to_N b).
Proof.
  intros H. unfold utf8_decode_ascii. apply mapM_ok_map.
  intros c Hc. rewrite forallb_forall in H.
  specialize (H (Byte.to_N c) (in_map _ _ _ Hc)).
  unfold is_ascii in H. change 0x80 with 128. now rewrite H.
Qed.

Lemma b64_char_ascii (n : N) : is_ascii (Byte.to_N (b64_char n)) = true.
Proof.
  unfold b64_char, is_ascii.
  destruct (N.ltb_spec n 26); [|destruct (N.ltb_spec n 52);
    [|destruct (N.ltb_spec n 62); [|destruct (n =? 62); reflexivity]]];
    rewrite to_N_byte_of_N, N.mod_small by lia; apply N.ltb_lt; lia.
Qed.

Lemma list_ind3 {A} (P : list A -> Prop) :
  P [] -> (forall x, P [x]) -> (forall x y, P [x; y]) ->
  (forall x y z l, P l -> P (x :: y :: z :: l)) ->
  forall l, P l.
Proof.
  intros H0 H1 H2 H3 l.
  assert (H : forall n l, (length l < n)%nat -> P l).
  { induction n as [|n IH]; intros l' Hl; [lia|].
    destruct l' as [|x [|y [|z l']]]; auto.
    apply H3, IH. cbn [length] in Hl. lia. }
  exact (H (S (length l)) l (Nat.lt_succ_diag_r _)).
Qed.

(** Base64 text is ASCII. *)
Lemma b64encode_ascii (b : bytes) :
  forallb is_ascii (map Byte.to_N (b64encode b)) = true.
Proof.
  induction b as [|x|x y|x y z l IH] using list_ind3;
    cbn [b64encode map forallb]; rewrite ?b64_char_ascii; try reflexivity.
  exact IH.
Qed.

Lemma str_format_handshake (arg : pystr) :
  str_format STR_HANDSHAKE arg
  = Ok (str_of_string "HTTP/1.1 101 Web Socket Protocol Handshake" ++ CRLF
          ++ str_of_string "Upgrade: websocket" ++ CRLF
          ++ str_of_string "Connection: Upgrade" ++ CRLF
          ++ str_of_string "Sec-WebSocket-Accept: " ++ arg
          ++ CRLF ++ CRLF).
Proof. reflexivity. Qed.

Lemma map_byte_of_N_to_N (b : bytes) : map byte_of_N (map Byte.to_N b) = b.
Proof.
  rewrite map_map. rewrite <- (map_id b) at 2.
  apply map_ext. exact byte_of_N_to_N.
Qed.

(** Lines 95-98 in closed form. *)
Lemma handshake_response_ok (client_key : bytes) :
  handshake_response client_key
  = Ok (upgrade_response (b64encode (SHA1.digest (client_key ++ MAGIC)))).
Proof.
  unfold handshake_response.
  generalize (b64encode_ascii (SHA1.digest (client_key ++ MAGIC))).
  generalize (b64encode (SHA1.digest (client_key ++ MAGIC))) as accept.
  intros accept Ha.
  rewrite utf8_decode_ascii_ok by exact Ha. cbn [bind].
  rewrite str_format_handshake. cbn [bind].
  rewrite utf8_encode_ascii.
  - f_equal. rewrite !map_app, map_byte_of_N_to_N. reflexivity.
  - rewrite !forallb_app, Ha. reflexivity.
Qed.

Lemma reject_response_ok : reject_response = Ok bad_request.
Proof. reflexivity. Qed.

(** ** Handshake rejection (C6) *)

Lemma find_client_key_none (lines : list bytes) :
  (forall line, In line lines -> startswith line key_token = false) ->
  find_client_key lines = Ok None.
Proof.
  induction lines as [|line lines IH]; intros H; [reflexivity|].
  cbn [find_client_key]. rewrite (H line (or_introl eq_refl)).
  apply IH. intros l Hl. apply H. now right.
Qed.

(** The key comes from the first line that starts with the token: what
    follows its first colon, stripped. *)
Lemma find_client_key_first (pre post : list bytes) (line : bytes) (i : nat) :
  (forall l, In l pre -> startswith l key_token = false) ->
  startswith line key_token = true ->
  bytes_index line [x3a] = Ok i ->
  find_client_key (pre ++ line :: post)
  = Ok (Some (strip (skipn (i + 1) line))).
Proof.
  intros Hpre Hline Hi. induction pre as [|l pre IH]; cbn [app find_client_key].
  - now rewrite Hline, Hi.
  - rewrite (Hpre l (or_introl eq_refl)).
    apply IH. intros l' Hl'. apply Hpre. now right.
Qed.

(** A line that does not contain the token does not start with it. *)
Lemma startswith_contains (line sub : bytes) :
  contains line sub = false -> startswith line sub = false.
Proof.
  unfold contains. destruct line as [|c line]; cbn [bytes_index];
    destruct (startswith _ sub); try reflexivity; discriminate.
Qed.

(** C6.  Handshake rejection: for every initial request none of whose lines
    starts with the [Sec-WebSocket-Key] token (so for every request with no
    line bearing it), the session prints its notice, sends exactly the fixed
    HTTP 400 response and returns: the registry is as it was, no callback
    has run, the receive loop is never entered, and no further step
    exists. *)
Theorem handshake_rejection
    (client : conn) (cb mcb : bool)
    (clients0 : list conn) (data : bytes) (rest : list recv_result)
    (fuel : nat) :
  (forall line, In line (splitlines data) ->
                startswith line key_token = false) ->
  let final := {| pc := Rejected; exn := None; clients := clients0;
                  trace := [EPrint not_found_message; ESend bad_request];
                  net := rest |} in
  handle_client client cb mcb (S fuel) clients0 (RecvData data :: rest)
  = final /\
  step client cb mcb final = None.
Proof.
  intros H final. split; [|reflexivity].
  unfold handle_client. cbn [run]. unfold step at 1. cbn [init exn pc net].
  rewrite (find_client_key_none _ H), reject_response_ok.
  change (goto Rejected
            (emit [EPrint not_found_message; ESend bad_request]
               (set_net rest (init clients0 (RecvData data :: rest)))))
    with final.
  destruct fuel; reflexivity.
Qed.

Lemma handshake_rejection_witness :
  let final := {| pc := Rejected; exn := None; clients := [7%nat];
                  trace := [EPrint not_found_message; ESend bad_request];
                  net := [RecvData [x81]] |} in
  handle_client 5%nat true true 3%nat [7%nat]
    [RecvData (bytes_of_string "GET / HTTP/1.1" ++ [x0d; x0a]
                 ++ bytes_of_string "Host: example.com"
                 ++ [x0d; x0a; x0d; x0a]);
     RecvData [x81]]
  = final /\
  step 5%nat true true final = None.
Proof.
  apply (handshake_rejection 5%nat true true [7%nat]
           (bytes_of_string "GET / HTTP/1.1" ++ [x0d; x0a]
              ++ bytes_of_string "Host: example.com"
              ++ [x0d; x0a; x0d; x0a])
           [RecvData [x81]] 2%nat).
  vm_compute. intros line [<-|[<-|[<-|[]]]]; reflexivity.
Defined.

(** A line that bears the token but does not start with it is no key line:
    the request is rejected as well. *)
Example token_inside_a_line_is_rejected :
  pc (handle_client 5%nat true true 3%nat []
        [RecvData (bytes_of_string "X-Sec-WebSocket-Key: abc" ++ [x0d; x0a])])
  = Rejected.
Proof. reflexivity. Qed.

(** ** Accept token (C8) *)

Lemma step_handshake_key client cb mcb clients0 data rest client_key :
  find_client_key (splitlines data) = Ok (Some client_key) ->
  step client cb mcb (init clients0 (RecvData data :: rest))
  = Some {| pc := Connected; exn := None; clients := clients0;
            trace := [ESend (upgrade_response
                               (b64encode
                                  (SHA1.digest (client_key ++ MAGIC))))];
            net := rest |}.
Proof.
  intros H. unfold step. cbn [init exn pc net].
  now rewrite H, handshake_response_ok.
Qed.

(** C8.  Accept token: for every request in which the handshake finds a
    [Sec-WebSocket-Key] line and extracts the key [k] from it, the session
    answers with the fixed HTTP 101 upgrade response whose
    [Sec-WebSocket-Accept] value is the base64 text of the SHA-1 digest of
    [k] followed by the WebSocket GUID, closed by a blank line, and goes on
    to the connect callback. *)
Theorem handshake_accept_token
    (client : conn) (cb mcb : bool)
    (clients0 : list conn) (data : bytes) (rest : list recv_result)
    (k : bytes) :
  find_client_key (splitlines data) = Ok (Some k) ->
  handshake_response k
  = Ok (upgrade_response (b64encode (SHA1.digest (k ++ MAGIC)))) /\
  step client cb mcb (init clients0 (RecvData data :: rest))
  = Some {| pc := Connected; exn := None; clients := clients0;
            trace := [ESend (upgrade_response
                               (b64encode (SHA1.digest (k ++ MAGIC))))];
            net := rest |}.
Proof.
  intros H. split.
  - apply handshake_response_ok.
  - now apply step_handshake_key.
Qed.

(** The sample handshake of RFC 6455. *)
Example rfc_accept_token :
  b64encode
    (SHA1.digest (bytes_of_string "dGhlIHNhbXBsZSBub25jZQ==" ++ MAGIC))
  = bytes_of_string "s3pPLMBiTxaQ9kYGzzhZRbK+xOo=".
Proof. vm_compute. reflexivity. Qed.

Lemma handshake_accept_token_witness :
  handshake_response (bytes_of_string "dGhlIHNhbXBsZSBub25jZQ==")
  = Ok (upgrade_response
          (b64encode
             (SHA1.digest
                (bytes_of_string "dGhlIHNhbXBsZSBub25jZQ==" ++ MAGIC)))) /\
  step 5%nat true true (init [] [RecvData rfc_request])
  = Some {| pc := Connected; exn := None; clients := [];
            trace := [ESend (upgrade_response
                               (b64encode
                                  (SHA1.digest
                                     (bytes_of_string "dGhlIHNhbXBsZSBub25jZQ=="
                                        ++ MAGIC))))];
            net := [] |}.
Proof.
  apply (handshake_accept_token 5%nat true true [] rfc_request []
           (bytes_of_string "dGhlIHNhbXBsZSBub25jZQ==")).
  vm_compute. reflexivity.
Defined.

(** ** Close-sentinel step (C4) *)

(** C4, as stated, fails: when the peer has gone ([recv] gives no bytes)
    the decoder says "no message" and the session leaves the loop, but the
    message callback has been invoked with that "no message" first. *)
Lemma message_callback_sees_close :
  let s := handle_client 5%nat false true 3%nat []
             [RecvData rfc_request; RecvData []] in
  let s' := handle_client 5%nat false true 4%nat []
              [RecvData rfc_request; RecvData []] in
  reachable 5%nat false true s /\
  pc s = Active /\ exn s = None /\ net s = [RecvData []] /\
  decode_message (WBytes []) = Ok None /\
  step 5%nat false true s = Some s' /\
  trace s' = trace s ++ [EMessageCallback None] /\
  ~ close_step_contract s s' None.
Proof.
  assert (E : exists r,
             handle_client 5%nat false true 3%nat []
               [RecvData rfc_request; RecvData []]
             = {| pc := Active; exn := None; clients := [5%nat];
                  trace := [ESend r]; net := [RecvData []] |} /\
             handle_client 5%nat false true 4%nat []
               [RecvData rfc_request; RecvData []]
             = {| pc := Closing; exn := None; clients := [5%nat];
                  trace := [ESend r; EMessageCallback None]; net := [] |})
    by (vm_compute; eexists; split; reflexivity).
  destruct E as (r & E3 & E4). cbv zeta.
  split; [apply reachable_handle_client; intros []|].
  rewrite E3, E4. cbn [pc exn net trace].
  repeat split.
  unfold close_step_contract. cbn [pc trace]. intros [_ H]. discriminate H.
Qed.

(** C4, amended.  In each iteration of the receive loop whose read returns
    bytes that the decoder accepts, the message callback, when one was
    supplied, is invoked with the decoder's result, "no message" included;
    after that the session goes to [Closing] if the result is "no message"
    and stays [Active] otherwise.  The registry is not touched. *)
Theorem receive_loop_step
    (client : conn) (cb mcb : bool) (s : session)
    (data : bytes) (rest : list recv_result) (message : option bytes) :
  pc s = Active ->
  exn s = None ->
  net s = RecvData data :: rest ->
  decode_message (WBytes data) = Ok message ->
  step client cb mcb s
  = Some {| pc := match message with
                  | None => Closing
                  | Some _ => Active
                  end;
            exn := None;
            clients := clients s;
            trace := trace s ++ (if mcb then [EMessageCallback message]
                                 else []);
            net := rest |}.
Proof.
  intros Hp He Hn Hd. unfold step. rewrite He, Hp, Hn, Hd.
  destruct s as [p e cl tr nt]. cbn in Hp, He. subst p e.
  now destruct message.
Qed.

Lemma receive_loop_step_witness :
  step 5%nat true true
    {| pc := Active; exn := None; clients := [5%nat]; trace := [];
       net := [RecvData [x88; x82; x01; x02; x03; x04; x02; xeb];
               RecvData []] |}
  = Some {| pc := Closing; exn := None; clients := [5%nat];
            trace := [] ++ [EMessageCallback None];
            net := [RecvData []] |}.
Proof.
  apply (receive_loop_step 5%nat true true
           {| pc := Active; exn := None; clients := [5%nat]; trace := [];
              net := [RecvData [x88; x82; x01; x02; x03; x04; x02; xeb];
                      RecvData []] |}
           [x88; x82; x01; x02; x03; x04; x02; xeb] [RecvData []] None);
    reflexivity.
Defined.

(** ** Runs of the model on concrete input *)

Example encode_text :
  encode_message (MStr (str_of_string "Hi")) = Ok [x82; x02; x48; x69].
Proof. reflexivity. Qed.

Example encode_bytes_text :
  encode_bytes (PStr (str_of_string "Hi")) = Ok [x81; x02; x48; x69].
Proof. reflexivity. Qed.

Example round_trip_text :
  exists frame,
    encode_message (MStr [0x48; 0x20AC; 0x1F600]) = Ok frame /\
    decode_message (WBytes (client_mask (x37, xfa, x21, x3d) frame))
    = Ok (Some [x48; xe2; x82; xac; xf0; x9f; x98; x80]).
Proof. eexists. split; reflexivity. Qed.

Example decode_masked_text :
  decode_message
    (WBytes (client_mask (x37, xfa, x21, x3d) [x82; x02; x48; x69]))
  = Ok (Some [x48; x69]).
Proof. reflexivity. Qed.

Example decode_close_frame :
  decode_message (WBytes [x88; x82; x01; x02; x03; x04; x02; xeb]) = Ok None.
Proof. reflexivity. Qed.

Example decode_str_input :
  decode_message (WStr (str_of_string "ab")) = Err TypeError.
Proof. reflexivity. Qed.

(** A key line without a colon: [line.index] raises and the thread ends
    with nothing sent. *)
Example handshake_without_colon :
  handle_client 5%nat true true 3%nat []
    [RecvData (bytes_of_string "Sec-WebSocket-Key")]
  = {| pc := Handshaking; exn := Some ValueError; clients := [];
       trace := []; net := [] |}.
Proof. reflexivity. Qed.

(** A whole session: handshake, connect callback, a binary frame, a failed
    read, the close frame. *)
Example session_end_to_end :
  let s := handle_client 5%nat true true 10%nat [7%nat]
             [RecvData rfc_request;
              RecvData (client_mask (x0a, x0b, x0c, x0d)
                          [x82; x03; x01; x02; x03]);
              RecvError;
              RecvData (client_mask (x0a, x0b, x0c, x0d)
                          [x88; x02; x03; xe9])] in
  pc s = Closed /\ exn s = None /\ clients s = [7%nat] /\
  trace s
  = [ESend (upgrade_response (bytes_of_string "s3pPLMBiTxaQ9kYGzzhZRbK+xOo="));
     EConnectCallback;
     EMessageCallback (Some [x01; x02; x03]);
     EMessageCallback None;
     EClose].
Proof. vm_compute. repeat split. Qed.

(** A truncated frame in the loop: the decoder raises, the thread ends and
    the handle stays in the list. *)
Example session_truncated_frame :
  let s := handle_client 5%nat true true 10%nat []
             [RecvData rfc_request; RecvData [x82]] in
  pc s = Active /\ exn s = Some StructError /\ clients s = [5%nat].
Proof. vm_compute. repeat split. Qed.

(** * Further properties of the code *)

(** ** Frames of [encode_bytes] and [encode_message] *)

Lemma encode_bytes_inv (p : payload) (f : bytes) :
  encode_bytes p = Ok f ->
  exists b, field_bytes p = Ok b /\ len b < 2 ^ 64 /\
            f = sub_frame (field_ctl p, b).
Proof.
  intros H.
  destruct (field_bytes p) as [b|e] eqn:Eb.
  - exists b. destruct (N.lt_ge_cases (len b) (2 ^ 64)) as [Hl|Hl].
    + repeat split; try assumption.
      assert (R : resolve p = Ok (field_ctl p, b))
        by (unfold resolve; now rewrite Eb).
      rewrite (encode_bytes_resolve p _ R Hl) in H. now injection H.
    + exfalso. destruct p as [s|b']; cbn [field_bytes] in Eb.
      * unfold encode_bytes in H. rewrite Eb in H. cbn [bind] in H.
        change (pack_B (N.lor 128 1)) with (Ok (A:=bytes) [x81]) in H.
        cbn [bind] in H.
        assert (H64 : 2 ^ 64 = 18446744073709551616) by reflexivity.
        rewrite (proj2 (N.ltb_ge (len b) 126)) in H by lia.
        rewrite (proj2 (N.ltb_ge (len b) (2 ^ 16 - 1))) in H
          by (change (2 ^ 16 - 1) with 65535; lia).
        unfold pack_BQ in H.
        rewrite (pack_be_ok 1 127) in H by reflexivity. cbn [bind] in H.
        rewrite (pack_be_err 8 (len b)) in H by exact Hl.
        discriminate H.
      * injection Eb as ->.
        rewrite encode_bytes_too_long in H by exact Hl. discriminate H.
  - exfalso. destruct p as [s|b']; cbn [field_bytes] in Eb; [|discriminate].
    unfold encode_bytes in H. rewrite Eb in H. discriminate H.
Qed.

(** X1.  Frames are self-delimiting: when the frames of two payloads, each
    followed by anything, are the same bytes, the two frames are equal, what
    follows them is equal, and the payloads have the same kind (text or
    binary) and the same bytes. *)
Theorem encode_bytes_self_delimiting
    (p q : payload) (f g r r' : bytes) :
  encode_bytes p = Ok f ->
  encode_bytes q = Ok g ->
  f ++ r = g ++ r' ->
  f = g /\ r = r' /\
  field_ctl p = field_ctl q /\ field_bytes p = field_bytes q.
Proof.
  intros Hp Hq E.
  destruct (encode_bytes_inv p f Hp) as (b & Hb & Hl & ->).
  destruct (encode_bytes_inv q g Hq) as (b' & Hb' & Hl' & ->).
  pose proof (parse_field_sub_frame (field_ctl p, b) r Hl) as P.
  pose proof (parse_field_sub_frame (field_ctl q, b') r' Hl') as P'.
  rewrite E, P' in P. injection P as Ec Eb Er.
  rewrite Hb, Hb', Ec, Eb, Er. repeat split.
Qed.

Lemma encode_bytes_self_delimiting_witness :
  [x82; x01; x41] = [x82; x01; x41] /\ [x82; x00] = [x82; x00] /\
  field_ctl (PBytes [x41]) = field_ctl (PBytes [x41]) /\
  field_bytes (PBytes [x41]) = field_bytes (PBytes [x41]).
Proof.
  apply (encode_bytes_self_delimiting
           (PBytes [x41]) (PBytes [x41])
           [x82; x01; x41] [x82; x01; x41] [x82; x00] [x82; x00]);
    reflexivity.
Defined.

(** X2.  [encode_message] never writes a text frame: every frame it
    returns, that of a [str] included, begins with the byte 82 (fin set,
    opcode 2), while [encode_bytes] applied to a [str] begins its frame
    with 81 (opcode 1). *)
Theorem encode_message_is_binary (message : app_message) (frame : bytes) :
  encode_message message = Ok frame ->
  hd_error frame = Some x82 /\
  (forall (s : pystr) (text : bytes),
      message = MStr s -> encode_bytes (PStr s) = Ok text ->
      hd_error text = Some x81 /\ tl text = tl frame).
Proof.
  intros H. unfold encode_message in H.
  match type of H with
  | bind ?r _ = _ => destruct r as [m|e] eqn:Em; [|discriminate]
  end.
  cbn [bind] in H.
  destruct (encode_bytes_inv _ _ H) as (b & Hb & Hl & ->).
  cbn [field_bytes] in Hb. injection Hb as <-.
  split; [reflexivity|].
  intros s text -> Ht.
  destruct (encode_bytes_inv _ _ Ht) as (b' & Hb' & _ & ->).
  cbn [field_bytes] in Hb'. rewrite Em in Hb'. injection Hb' as <-.
  split; reflexivity.
Qed.

Lemma encode_message_is_binary_witness :
  hd_error [x82; x02; x48; x69] = Some x82 /\
  (forall (s : pystr) (text : bytes),
      MStr (str_of_string "Hi") = MStr s ->
      encode_bytes (PStr s) = Ok text ->
      hd_error text = Some x81 /\ tl text = tl [x82; x02; x48; x69]).
Proof.
  apply (encode_message_is_binary (MStr (str_of_string "Hi"))).
  reflexivity.
Defined.

(** ** Decoding what was not a single masked frame *)

(** X3.  Round trip at every length, and its one exception: for every text
    or binary payload that fits a frame, encode, client mask and decode give
    the payload back, unless the payload is the two bytes 03 E9, which come
    back as "no message". *)
Theorem round_trip_or_close (k : mask_key) (m : bytes) :
  len m < 2 ^ 64 ->
  (exists frame,
      encode_message (MBytes m) = Ok frame /\
      decode_message (WBytes (client_mask k frame))
      = Ok (if bytes_eqb m close_payload then None else Some m)) /\
  (forall s : pystr,
      utf8_encode s = Ok m ->
      exists frame,
        encode_message (MStr s) = Ok frame /\
        decode_message (WBytes (client_mask k frame))
        = Ok (if bytes_eqb m close_payload then None else Some m)).
Proof.
  intros Hl.
  destruct (round_trip_bytes k m Hl) as (frame & Henc & _ & Hdec).
  unfold close_filter in Hdec.
  split.
  - exists frame. now rewrite encode_message_MBytes.
  - intros s Hs. exists frame. now rewrite (encode_message_MStr s m Hs).
Qed.

Lemma round_trip_or_close_witness :
  (exists frame,
      encode_message (MBytes [x03; xe9]) = Ok frame /\
      decode_message (WBytes (client_mask (x37, xfa, x21, x3d) frame))
      = Ok (if bytes_eqb [x03; xe9] close_payload then None
            else Some [x03; xe9])) /\
  (exists frame,
      encode_message (MStr [0x48; 0xE9]) = Ok frame /\
      decode_message (WBytes (client_mask (x37, xfa, x21, x3d) frame))
      = Ok (if bytes_eqb [x48; xc3; xa9] close_payload then None
            else Some [x48; xc3; xa9])).
Proof.
  split.
  - apply (round_trip_or_close (x37, xfa, x21, x3d) [x03; xe9]).
    reflexivity.
  - apply (proj2 (round_trip_or_close (x37, xfa, x21, x3d) [x48; xc3; xa9]
                    eq_refl) [0x48; 0xE9]).
    reflexivity.
Defined.

(** X4.  The decoder does not look at the mask bit: given a frame just as
    [encode_bytes] made it, it takes the first four payload bytes for the
    key and returns the rest XOR-ed with them. *)
Theorem decode_unmasked_frame (m : bytes) :
  len m < 2 ^ 64 ->
  exists frame,
    encode_bytes (PBytes m) = Ok frame /\
    decode_message (WBytes frame)
    = Ok (close_filter (xor_from (firstn 4 m) 0 (skipn 4 m))).
Proof.
  intros Hl. eexists. split; [now apply encode_bytes_PBytes|].
  destruct (length_field_cases (len m)) as (b2 & ext & -> & He).
  cbn [app].
  rewrite decode_message_frame by (cbn [length]; lia).
  rewrite unmasked_payload_header. cbv zeta. rewrite <- He.
  rewrite skipn_len_app.
  replace (length ext + 4)%nat with (4 + length ext)%nat by lia.
  rewrite <- (skipn_skipn 4 (length ext)), skipn_len_app.
  reflexivity.
Qed.

Lemma decode_unmasked_frame_witness :
  exists frame,
    encode_bytes (PBytes [x01; x02; x03; x04; x11; x12]) = Ok frame /\
    decode_message (WBytes frame)
    = Ok (close_filter
            (xor_from (firstn 4 [x01; x02; x03; x04; x11; x12]) 0
               (skipn 4 [x01; x02; x03; x04; x11; x12]))).
Proof.
  apply (decode_unmasked_frame [x01; x02; x03; x04; x11; x12]).
  reflexivity.
Defined.

Lemma xor_from_app masks i a b :
  xor_from masks i (a ++ b)
  = xor_from masks i a ++ xor_from masks (i + length a) b.
Proof.
  revert i. induction a as [|x a IH]; intros i; cbn [app xor_from length].
  - now rewrite Nat.add_0_r.
  - rewrite IH. now rewrite Nat.add_succ_comm.
Qed.

(** X5.  Bytes that follow a frame in the same read are not a second
    message: the decoder returns them at the end of the first payload,
    XOR-ed with the first frame's key at the running position. *)
Theorem decode_trailing_bytes (message extra : bytes) :
  (mask_offset message + 4 <= length message)%nat ->
  decode_message (WBytes (message ++ extra))
  = Ok (close_filter
          (unmasked_payload message
           ++ xor_from
                (slice message (mask_offset message) (mask_offset message + 4))
                (length (unmasked_payload message)) extra)).
Proof.
  intros H.
  assert (H2 : (2 <= mask_offset message)%nat).
  { unfold mask_offset. destruct (_ =? 126); [lia|]. destruct (_ =? 127); lia. }
  rewrite decode_message_frame by (rewrite length_app; lia).
  assert (Ho : mask_offset (message ++ extra) = mask_offset message).
  { destruct message as [|b1 [|b2 rest]]; cbn [length] in H; try lia.
    reflexivity. }
  unfold unmasked_payload. rewrite Ho.
  set (off := mask_offset message) in *.
  unfold slice.
  rewrite !skipn_app.
  replace (off + 4 - length message)%nat with 0%nat by lia.
  replace (off - length message)%nat with 0%nat by lia.
  cbn [skipn].
  rewrite firstn_app.
  replace (off + 4 - off - length (skipn off message))%nat with 0%nat
    by (rewrite length_skipn; lia).
  rewrite firstn_O, app_nil_r.
  rewrite xor_from_app, xor_from_length. reflexivity.
Qed.

Lemma decode_trailing_bytes_witness :
  decode_message
    (WBytes ([x82; x81; x01; x02; x03; x04; x49]
               ++ [x82; x81; x05; x06; x07; x08; x4d]))
  = Ok (close_filter
          (unmasked_payload [x82; x81; x01; x02; x03; x04; x49]
           ++ xor_from
                (slice [x82; x81; x01; x02; x03; x04; x49]
                   (mask_offset [x82; x81; x01; x02; x03; x04; x49])
                   (mask_offset [x82; x81; x01; x02; x03; x04; x49] + 4))
                (length (unmasked_payload [x82; x81; x01; x02; x03; x04; x49]))
                [x82; x81; x05; x06; x07; x08; x4d])).
Proof.
  apply (decode_trailing_bytes [x82; x81; x01; x02; x03; x04; x49]
           [x82; x81; x05; x06; x07; x08; x4d]).
  simpl. lia.
Defined.

(** ** The key line of the handshake *)

Lemma startswith_app (prefix rest : bytes) :
  startswith (prefix ++ rest) prefix = true.
Proof.
  induction prefix as [|p prefix IH]; [now destruct rest|].
  cbn [app startswith]. rewrite IH, andb_true_r.
  now apply Byte.byte_dec_lb.
Qed.

Lemma bytes_index_absent (c : byte) (line : bytes) :
  ~ In c line -> bytes_index line [c] = Err ValueError.
Proof.
  induction line as [|x line IH]; intros H; [reflexivity|].
  cbn [bytes_index startswith].
  destruct (Byte.eqb x c) eqn:E.
  - apply Byte.byte_dec_bl in E. subst x. exfalso. apply H. now left.
  - cbn [andb]. rewrite IH; [reflexivity|]. intros Hin. apply H. now right.
Qed.

Lemma bytes_index_first (c : byte) (pre post : bytes) :
  ~ In c pre -> bytes_index (pre ++ c :: post) [c] = Ok (length pre).
Proof.
  induction pre as [|x pre IH]; intros H.
  - cbn [app length]. destruct post; cbn [bytes_index startswith];
      rewrite (Byte.byte_dec_lb (x:=c) eq_refl); reflexivity.
  - cbn [app bytes_index startswith length].
    destruct (Byte.eqb x c) eqn:E.
    + apply Byte.byte_dec_bl in E. subst x. exfalso. apply H. now left.
    + cbn [andb]. rewrite IH; [reflexivity|]. intros Hin. apply H. now right.
Qed.

Lemma lstrip_spaces (ws b : bytes) :
  forallb is_space ws = true -> lstrip (ws ++ b) = lstrip b.
Proof.
  induction ws as [|c ws IH]; intros H; [reflexivity|].
  cbn [forallb] in H. apply andb_prop in H as [Hc Hw].
  cbn [app lstrip]. rewrite Hc. now apply IH.
Qed.

Lemma lstrip_all_spaces (ws : bytes) :
  forallb is_space ws = true -> lstrip ws = [].
Proof.
  intros H. rewrite <- (app_nil_r ws). now rewrite lstrip_spaces.
Qed.

Lemma lstrip_fixed_app (k b : bytes) :
  k <> [] -> lstrip k = k -> lstrip (k ++ b) = k ++ b.
Proof.
  destruct k as [|c k]; [congruence|]. intros _ H.
  cbn [lstrip app] in *. destruct (is_space c); [|reflexivity].
  exfalso.
  assert (L : forall l : bytes, (length (lstrip l) <= length l)%nat).
  { induction l as [|x l IH]; cbn [lstrip]; [lia|].
    destruct (is_space x); cbn [length]; lia. }
  specialize (L k). rewrite H in L. cbn [length] in L. lia.
Qed.

(** Spaces around a value that has none at its ends are what [strip]
    takes away. *)
Lemma strip_padded (ws1 k ws2 : bytes) :
  forallb is_space ws1 = true ->
  forallb is_space ws2 = true ->
  lstrip k = k -> lstrip (rev k) = rev k ->
  strip (ws1 ++ k ++ ws2) = k.
Proof.
  intros H1 H2 Hk Hr. unfold strip. rewrite lstrip_spaces by exact H1.
  destruct k as [|c k].
  - cbn [app]. rewrite (lstrip_all_spaces ws2) by exact H2. reflexivity.
  - rewrite lstrip_fixed_app by (assumption || discriminate).
    rewrite rev_app_distr, lstrip_spaces
      by (rewrite forallb_forall in *; intros x Hx; apply H2;
          now apply in_rev).
    rewrite Hr. apply rev_involutive.
Qed.

(** X6.  The client key is what stands between the first colon of the
    first line that starts with [Sec-WebSocket-Key] and the end of that
    line, without the spaces around it: whatever the line has between the
    token and the colon is skipped, and later lines are not looked at. *)
Theorem client_key_of_first_key_line
    (pre post : list bytes) (junk ws1 k ws2 : bytes) :
  (forall l, In l pre -> startswith l key_token = false) ->
  ~ In x3a junk ->
  forallb is_space ws1 = true ->
  forallb is_space ws2 = true ->
  lstrip k = k -> lstrip (rev k) = rev k ->
  find_client_key
    (pre ++ (key_token ++ junk ++ x3a :: ws1 ++ k ++ ws2) :: post)
  = Ok (Some k).
Proof.
  intros Hpre Hj H1 H2 Hk Hr.
  assert (Hi : bytes_index (key_token ++ junk ++ x3a :: ws1 ++ k ++ ws2)
                 [x3a]
               = Ok (length (key_token ++ junk))).
  { rewrite app_assoc. apply bytes_index_first.
    intros Hin. apply in_app_or in Hin as [Hin|Hin]; [|contradiction].
    revert Hin. vm_compute. intuition discriminate. }
  refine (eq_trans
            (find_client_key_first pre post _ _ Hpre (startswith_app _ _) Hi)
            _).
  do 2 f_equal.
  replace (length (key_token ++ junk) + 1)%nat
    with (length ((key_token ++ junk) ++ [x3a]))
    by (rewrite length_app; reflexivity).
  replace (key_token ++ junk ++ x3a :: ws1 ++ k ++ ws2)
    with (((key_token ++ junk) ++ [x3a]) ++ ws1 ++ k ++ ws2)
    by (now rewrite <- !app_assoc).
  rewrite skipn_len_app. now apply strip_padded.
Qed.

Lemma client_key_of_first_key_line_witness :
  find_client_key
    ([bytes_of_string "GET / HTTP/1.1"]
       ++ (key_token ++ bytes_of_string "-Alt" ++ x3a
             :: [x20; x09] ++ bytes_of_string "abc=" ++ [x20])
       :: [bytes_of_string "Sec-WebSocket-Key: other"])
  = Ok (Some (bytes_of_string "abc=")).
Proof.
  apply (client_key_of_first_key_line
           [bytes_of_string "GET / HTTP/1.1"]
           [bytes_of_string "Sec-WebSocket-Key: other"]
           (bytes_of_string "-Alt") [x20; x09]
           (bytes_of_string "abc=") [x20]);
    try reflexivity.
  - intros l [<-|[]]. reflexivity.
  - vm_compute. intuition discriminate.
Defined.

(** X7.  A key line without a colon ends the session at once: when the
    first line that starts with the token has no colon, [line.index]
    raises [ValueError]; nothing is sent, not even the reject response, no
    callback runs and the registry is as it was. *)
Theorem key_line_without_colon
    (client : conn) (cb mcb : bool) (clients0 : list conn)
    (data : bytes) (rest : list recv_result)
    (pre post : list bytes) (line : bytes) (fuel : nat) :
  splitlines data = pre ++ line :: post ->
  (forall l, In l pre -> startswith l key_token = false) ->
  startswith line key_token = true ->
  ~ In x3a line ->
  handle_client client cb mcb (S fuel) clients0 (RecvData data :: rest)
  = {| pc := Handshaking; exn := Some ValueError; clients := clients0;
       trace := []; net := rest |}.
Proof.
  intros Hs Hpre Hl Hc.
  assert (Hk : find_client_key (splitlines data) = Err ValueError).
  { rewrite Hs. clear Hs.
    induction pre as [|l pre IH]; cbn [app find_client_key].
    - now rewrite Hl, bytes_index_absent.
    - rewrite (Hpre l (or_introl eq_refl)).
      apply IH. intros l' Hl'. apply Hpre. now right. }
  unfold handle_client. cbn [run]. unfold step at 1. cbn [init exn pc net].
  rewrite Hk.
  destruct fuel; reflexivity.
Qed.

Lemma key_line_without_colon_witness :
  handle_client 5%nat true true 2%nat [7%nat]
    [RecvData (bytes_of_string "GET / HTTP/1.1" ++ [x0d; x0a]
                 ++ bytes_of_string "Sec-WebSocket-Key abc" ++ [x0d; x0a]);
     RecvData []]
  = {| pc := Handshaking; exn := Some ValueError; clients := [7%nat];
       trace := []; net := [RecvData []] |}.
Proof.
  apply (key_line_without_colon 5%nat true true [7%nat] _ _
           [bytes_of_string "GET / HTTP/1.1"] []
           (bytes_of_string "Sec-WebSocket-Key abc") 1%nat).
  - reflexivity.
  - intros l [<-|[]]. reflexivity.
  - reflexivity.
  - vm_compute. intuition discriminate.
Defined.

(** ** Whole sessions *)

Lemma run_stuck client cb mcb fuel s :
  step client cb mcb s = None -> run client cb mcb fuel s = s.
Proof. intros H. destruct fuel; cbn [run]; [reflexivity|]. now rewrite H. Qed.

Lemma run_plus client cb mcb a b s :
  run client cb mcb (a + b) s = run client cb mcb b (run client cb mcb a s).
Proof.
  revert s. induction a as [|a IH]; intros s; [reflexivity|].
  cbn [Nat.add run]. destruct (step client cb mcb s) as [s'|] eqn:E.
  - apply IH.
  - symmetry. now apply run_stuck.
Qed.

Lemma list_remove_last (c : conn) (l : list conn) :
  ~ In c l -> list_remove c (l ++ [c]) = Ok l.
Proof.
  induction l as [|y l IH]; intros H; cbn [app list_remove].
  - now rewrite Nat.eqb_refl.
  - destruct (Nat.eqb_spec y c) as [->|Hy].
    + exfalso. apply H. now left.
    + rewrite IH; [reflexivity|]. intros Hin. apply H. now right.
Qed.

(** The loop over reads that keep it going: each failed read is skipped,
    each message goes to the callback, in order. *)
Lemma run_reads client cb mcb (reads : list recv_result) :
  forall (s : session) (tail : list recv_result),
    pc s = Active -> exn s = None -> net s = reads ++ tail ->
    forallb keeps_active reads = true ->
    run client cb mcb (length reads) s
    = {| pc := Active; exn := None; clients := clients s;
         trace := trace s ++ (if mcb
                              then map EMessageCallback (messages_of reads)
                              else []);
         net := tail |}.
Proof.
  induction reads as [|r reads IH]; intros s tail Hp He Hn Hk.
  - destruct s as [p e cl tr nt]. cbn in *. subst.
    destruct mcb; cbn [map]; now rewrite app_nil_r.
  - cbn [forallb] in Hk. apply andb_prop in Hk as [Hr Hk].
    cbn [length run]. unfold step at 1. rewrite He, Hp, Hn. cbn [app].
    destruct r as [data|]; cbn [keeps_active] in Hr.
    + destruct (decode_message (WBytes data)) as [[m|]|] eqn:Ed;
        try discriminate Hr.
      rewrite (IH _ tail) by (try reflexivity; assumption).
      destruct s as [p e cl tr nt]. cbn in *.
      rewrite Ed. destruct mcb; cbn [map app];
        now rewrite <- ?app_assoc, ?app_nil_r.
    + rewrite (IH _ tail) by (try reflexivity; assumption).
      now destruct s.
Qed.

(** X8.  A session from the first read to the close: after a request with
    a key, any reads that are failed reads or frames with a message, and
    then a read that decodes to "no message" (a close frame, or no bytes at
    all), the session has sent the upgrade response, invoked the connect
    callback, invoked the message callback once per message in the order
    of arrival and once with "no message", closed the socket, and left the
    client list as it found it.  Failed reads leave no trace. *)
Theorem session_runs_to_close
    (client : conn) (cb mcb : bool) (clients0 : list conn)
    (data k last : bytes) (reads rest : list recv_result) (fuel : nat) :
  ~ In client clients0 ->
  find_client_key (splitlines data) = Ok (Some k) ->
  forallb keeps_active reads = true ->
  decode_message (WBytes last) = Ok None ->
  (length reads + 6 <= fuel)%nat ->
  handle_client client cb mcb fuel clients0
    (RecvData data :: reads ++ RecvData last :: rest)
  = {| pc := Closed; exn := None; clients := clients0;
       trace :=
         [ESend (upgrade_response (b64encode (SHA1.digest (k ++ MAGIC))))]
         ++ (if cb then [EConnectCallback] else [])
         ++ (if mcb
             then map EMessageCallback (messages_of reads ++ [None])
             else [])
         ++ [EClose];
       net := rest |}.
Proof.
  intros Hin Hkey Hreads Hlast Hfuel.
  replace fuel with (3 + (length reads + (3 + (fuel - length reads - 6))))%nat
    by lia.
  unfold handle_client.
  rewrite (run_plus _ _ _ 3). cbn [run].
  rewrite (step_handshake_key _ _ _ _ _ _ _ Hkey).
  unfold step at 1. cbn [exn pc].
  unfold step at 1. cbn [exn pc goto emit trace clients net].
  rewrite run_plus.
  rewrite (run_reads _ _ _ reads _ (RecvData last :: rest))
    by (try reflexivity; assumption).
  cbn [clients trace].
  rewrite (run_plus _ _ _ 3). cbn [run].
  unfold step at 1. cbn [exn pc net]. rewrite Hlast.
  unfold step at 1. cbn [exn pc goto emit set_net set_clients clients].
  rewrite (list_remove_last _ _ Hin).
  unfold step at 1.
  cbn [exn pc goto emit set_net set_clients clients trace net].
  rewrite run_stuck by reflexivity.
  unfold goto, emit, set_net, set_clients. cbn [pc exn clients trace net].
  f_equal. destruct cb, mcb; cbn [app map];
    rewrite ?map_app, <- ?app_assoc, ?app_nil_r; reflexivity.
Qed.

Lemma session_runs_to_close_witness :
  handle_client 5%nat true true 9%nat [7%nat]
    (RecvData rfc_request
       :: [RecvData (client_mask (x0a, x0b, x0c, x0d)
                       [x82; x03; x01; x02; x03]);
           RecvError]
       ++ RecvData [] :: [RecvData [x81]])
  = {| pc := Closed; exn := None; clients := [7%nat];
       trace :=
         [ESend (upgrade_response
                   (b64encode
                      (SHA1.digest
                         (bytes_of_string "dGhlIHNhbXBsZSBub25jZQ=="
                            ++ MAGIC))))]
         ++ (if true then [EConnectCallback] else [])
         ++ (if true
             then map EMessageCallback
                    (messages_of
                       [RecvData (client_mask (x0a, x0b, x0c, x0d)
                                    [x82; x03; x01; x02; x03]);
                        RecvError] ++ [None])
             else [])
         ++ [EClose];
       net := [RecvData [x81]] |}.
Proof.
  apply (session_runs_to_close 5%nat true true [7%nat] rfc_request
           (bytes_of_string "dGhlIHNhbXBsZSBub25jZQ==") []).
  - simpl. lia.
  - vm_compute. reflexivity.
  - reflexivity.
  - reflexivity.
  - simpl. lia.
Defined.

(** The socket is closed at the last step only. *)
Lemma no_close_before_closed client cb mcb s :
  reachable client cb mcb s -> pc s <> Closed -> ~ In EClose (trace s).
Proof.
  induction 1 as [clients0 net0 H | s s' _ IH Hs
                 | s c _ IH Hc | s c l _ IH Hc Hl];
    try (destruct s; exact IH); [intros _ []|].
  intros Hp.
  destruct s as [p e cl tr nt]. unfold step in Hs. cbn [exn pc net] in Hs.
  cbn [pc trace] in IH.
  destruct e; [discriminate|].
  destruct p; break_step Hs; injection Hs as <-;
    cbn [pc trace raise goto emit set_clients set_net] in *;
    try congruence;
    rewrite ?in_app_iff; cbn [In];
    intros Hin; repeat destruct Hin as [Hin|Hin];
    try discriminate Hin; try contradiction;
    try (revert Hin; apply IH; discriminate).
Qed.

(** X9.  A frame the decoder raises on ends the thread inside the loop:
    the message callback is not invoked, the exception is not caught, and
    from then on the session takes no step, so its handle stays in the
    client list and its socket is never closed. *)
Theorem decode_failure_leaks_connection
    (client : conn) (cb mcb : bool) (s : session)
    (data : bytes) (rest : list recv_result) (e : pyexn) (fuel : nat) :
  reachable client cb mcb s ->
  pc s = Active -> exn s = None -> net s = RecvData data :: rest ->
  decode_message (WBytes data) = Err e ->
  let s' := run client cb mcb (S fuel) s in
  s' = {| pc := Active; exn := Some e; clients := clients s;
          trace := trace s; net := rest |} /\
  step client cb mcb s' = None /\
  In client (clients s') /\
  ~ In EClose (trace s').
Proof.
  intros Hr Hp He Hn Hd s'.
  assert (E : s' = {| pc := Active; exn := Some e; clients := clients s;
                      trace := trace s; net := rest |}).
  { unfold s'. cbn [run]. unfold step at 1. rewrite He, Hp, Hn, Hd.
    rewrite run_stuck by reflexivity.
    destruct s as [p x cl tr nt]. cbn in *. now subst. }
  split; [exact E|]. rewrite E. cbn [clients trace].
  split; [reflexivity|].
  destruct (session_inv_reachable _ _ _ _ Hr) as (Hc & _).
  rewrite Hp in Hc. cbn [registered] in Hc.
  split.
  - apply (count_occ_In Nat.eq_dec). lia.
  - apply (no_close_before_closed _ _ _ _ Hr). congruence.
Qed.

Lemma decode_failure_leaks_connection_witness :
  let s := handle_client 5%nat true true 3%nat []
             [RecvData rfc_request; RecvData [x88]] in
  let s' := run 5%nat true true 4%nat s in
  s' = {| pc := Active; exn := Some StructError; clients := clients s;
          trace := trace s; net := [] |} /\
  step 5%nat true true s' = None /\
  In 5%nat (clients s') /\
  ~ In EClose (trace s').
Proof.
  apply (decode_failure_leaks_connection 5%nat true true
           (handle_client 5%nat true true 3%nat []
              [RecvData rfc_request; RecvData [x88]])
           [x88] [] StructError 3%nat).
  - apply reachable_handle_client. simpl. lia.
  - vm_compute. reflexivity.
  - vm_compute. reflexivity.
  - vm_compute. reflexivity.
  - reflexivity.
Defined.

(** ** Sessions side by side *)

Lemma list_remove_others (client : conn) (l l' : list conn) :
  list_remove client l = Ok l' -> others client l' = others client l.
Proof.
  revert l'. induction l as [|y l IH]; intros l' H; [discriminate|].
  cbn [list_remove] in H. unfold others in *. cbn [filter].
  destruct (Nat.eqb y client) eqn:E.
  - injection H as <-. reflexivity.
  - destruct (list_remove client l) as [r|]; [|discriminate].
    cbn [bind] in H. injection H as <-.
    cbn [filter negb]. rewrite E. cbn [negb]. now rewrite (IH r).
Qed.

Lemma step_others (client : conn) (cb mcb : bool) (s s' : session) :
  step client cb mcb s = Some s' ->
  others client (clients s') = others client (clients s).
Proof.
  intros H. destruct s as [p e cl tr nt]. unfold step in H.
  cbn [exn pc net clients] in *.
  destruct e; [discriminate|].
  destruct p; break_step H; injection H as <-;
    cbn [clients raise goto emit set_clients set_net]; try reflexivity.
  - unfold others. rewrite filter_app. cbn [filter].
    rewrite Nat.eqb_refl. cbn [negb]. apply app_nil_r.
  - now apply list_remove_others.
Qed.

(** X10.  A session touches no handle but its own: however many steps it
    takes, from any point, the other handles in the client list are the
    same ones, in the same order. *)
Theorem session_keeps_other_handles
    (client : conn) (cb mcb : bool) (fuel : nat) (s : session) :
  others client (clients (run client cb mcb fuel s))
  = others client (clients s).
Proof.
  revert s. induction fuel as [|fuel IH]; intros s; [reflexivity|].
  cbn [run]. destruct (step client cb mcb s) as [s'|] eqn:E; [|reflexivity].
  rewrite IH. exact (step_others _ _ _ _ _ E).
Qed.

Lemma count_occ_others (client c : conn) (l : list conn) :
  c <> client ->
  count_occ Nat.eq_dec l c = count_occ Nat.eq_dec (others client l) c.
Proof.
  intros H. induction l as [|y l IH]; [reflexivity|].
  unfold others in *. cbn [filter count_occ].
  destruct (Nat.eqb_spec y client) as [->|Hy]; cbn [negb].
  - destruct (Nat.eq_dec client c); [congruence|exact IH].
  - cbn [count_occ]. destruct (Nat.eq_dec y c); now rewrite IH.
Qed.

Lemma step_count_other client cb mcb s s' c :
  step client cb mcb s = Some s' -> c <> client ->
  count_occ Nat.eq_dec (clients s') c = count_occ Nat.eq_dec (clients s) c.
Proof.
  intros H Hc.
  rewrite (count_occ_others client c (clients s')) by exact Hc.
  rewrite (count_occ_others client c (clients s)) by exact Hc.
  now rewrite (step_others _ _ _ _ _ H).
Qed.

Lemma list_set_length {A} (i : nat) (x : A) (l : list A) :
  length (list_set i x l) = length l.
Proof.
  revert i. induction l as [|y l IH]; intros i; [reflexivity|].
  destruct i; cbn [list_set length]; [reflexivity|]. now rewrite IH.
Qed.

Lemma nth_error_list_set {A} (i j : nat) (x : A) (l : list A) :
  (i < length l)%nat ->
  nth_error (list_set i x l) j
  = if Nat.eqb j i then Some x else nth_error l j.
Proof.
  revert i j. induction l as [|y l IH]; intros i j H; cbn [length] in H;
    [lia|].
  destruct i, j; cbn [list_set nth_error Nat.eqb]; try reflexivity.
  apply IH. lia.
Qed.

Lemma session_inv_frame c cb mcb l l' t :
  count_occ Nat.eq_dec l' c = count_occ Nat.eq_dec l c ->
  session_inv c cb mcb (join l t) -> session_inv c cb mcb (join l' t).
Proof.
  unfold session_inv, join. cbn [pc clients trace]. intros E H.
  now rewrite E.
Qed.

Lemma server_inv_init cb mcb : server_inv cb mcb server_init.
Proof.
  split.
  - intros c t H. destruct c; discriminate H.
  - reflexivity.
Qed.

Lemma server_inv_step cb mcb (s : server) (a : action) :
  server_inv cb mcb s -> server_inv cb mcb (server_step cb mcb s a).
Proof.
  intros [Ht Hf]. destruct a as [net0|c]; cbn [server_step].
  - (* a connection arrives *)
    split; cbn [srv_clients srv_threads].
    + intros c t H.
      destruct (Nat.lt_ge_cases c (length (srv_threads s))) as [Hc|Hc].
      * rewrite nth_error_app1 in H by exact Hc. now apply Ht.
      * rewrite nth_error_app2 in H by exact Hc.
        destruct (c - length (srv_threads s))%nat as [|n] eqn:E;
          [|destruct n; discriminate H].
        injection H as <-.
        unfold session_inv, join, split, init. cbn.
        rewrite !andb_false_r. repeat split. now apply Hf.
    + intros c Hc. rewrite length_app in Hc. cbn [length] in Hc.
      apply Hf. lia.
  - (* thread [c] takes a step *)
    destruct (nth_error (srv_threads s) c) as [t|] eqn:Et;
      [|now split].
    destruct (step c cb mcb (join (srv_clients s) t)) as [s'|] eqn:Es;
      [|now split].
    assert (Hlt : (c < length (srv_threads s))%nat)
      by (apply nth_error_Some; congruence).
    split; cbn [srv_clients srv_threads].
    + intros c2 t2 H. rewrite nth_error_list_set in H by exact Hlt.
      destruct (Nat.eqb_spec c2 c) as [->|Hne].
      * injection H as <-.
        replace (join (clients s') (split s')) with s' by now destruct s'.
        exact (session_inv_step _ _ _ _ _ (Ht c t Et) Es).
      * apply (session_inv_frame _ _ _ (srv_clients s)); [|now apply Ht].
        exact (step_count_other _ _ _ _ _ _ Es Hne).
    + intros c2 Hc2. rewrite list_set_length in Hc2.
      rewrite (step_count_other _ _ _ _ _ c2 Es) by lia.
      now apply Hf.
Qed.

Lemma server_inv_serve_forever cb mcb (schedule : list action) :
  server_inv cb mcb (serve_forever cb mcb schedule).
Proof.
  unfold serve_forever.
  assert (G : forall s, server_inv cb mcb s ->
                        server_inv cb mcb
                          (fold_left (server_step cb mcb) schedule s)).
  { induction schedule as [|a schedule IH]; intros s H; [exact H|].
    cbn [fold_left]. apply IH. now apply server_inv_step. }
  apply G, server_inv_init.
Qed.

Lemma server_count cb mcb (s : server) (c : conn) :
  server_inv cb mcb s ->
  count_occ Nat.eq_dec (srv_clients s) c
  = (if thread_registered s c then 1 else 0)%nat.
Proof.
  intros [Ht Hf]. unfold thread_registered.
  destruct (nth_error (srv_threads s) c) as [t|] eqn:Et.
  - now destruct (Ht c t Et) as (H & _).
  - apply Hf. now apply nth_error_None.
Qed.

(** X11.  The client list under any interleaving: however connections
    arrive and however the threads of [serve_forever] are scheduled, the
    list never holds a handle twice, and it holds exactly the handles of
    the sessions that have run their registry add and not yet their
    registry remove; so it is empty when every session has returned. *)
Theorem registry_under_interleaving (cb mcb : bool) (schedule : list action) :
  let s := serve_forever cb mcb schedule in
  NoDup (srv_clients s) /\
  (forall c, In c (srv_clients s) <-> thread_registered s c = true) /\
  ((forall t, In t (srv_threads s) -> t_pc t = Closed \/ t_pc t = Rejected) ->
   srv_clients s = []).
Proof.
  intros s.
  pose proof (server_inv_serve_forever cb mcb schedule) as Hinv.
  fold s in Hinv.
  assert (Hcount := fun c => server_count cb mcb s c Hinv).
  split; [|split].
  - apply (NoDup_count_occ Nat.eq_dec). intros c. rewrite Hcount.
    destruct (thread_registered s c); lia.
  - intros c. rewrite (count_occ_In Nat.eq_dec), Hcount.
    destruct (thread_registered s c); split; intros; try lia; congruence.
  - intros Hall. destruct (srv_clients s) as [|c l] eqn:E; [reflexivity|].
    exfalso. specialize (Hcount c). rewrite ?E in Hcount.
    cbn [count_occ] in Hcount.
    destruct (Nat.eq_dec c c); [|contradiction].
    unfold thread_registered in Hcount.
    destruct (nth_error (srv_threads s) c) as [t|] eqn:Et; [|lia].
    destruct (Hall t (nth_error_In _ _ Et)) as [Hp|Hp];
      rewrite Hp in Hcount; cbn [registered] in Hcount; lia.
Qed.

Lemma registry_under_interleaving_witness :
  srv_clients
    (serve_forever true true
       [Accept [RecvData rfc_request; RecvData []];
        Accept [RecvData []];
        Run 0%nat; Run 1%nat; Run 0%nat; Run 0%nat; Run 0%nat;
        Run 0%nat; Run 0%nat])
  = [].
Proof.
  apply (registry_under_interleaving true true
           [Accept [RecvData rfc_request; RecvData []];
            Accept [RecvData []];
            Run 0%nat; Run 1%nat; Run 0%nat; Run 0%nat; Run 0%nat;
        Run 0%nat; Run 0%nat]).
  vm_compute. intros t [<-|[<-|[]]]; [left|right]; reflexivity.
Defined.

(** ** [RobotController.run] *)

Section ControllerProperties.

Import RobotController.

Context {E : Env}.

Lemma update_control_gains (c c' : controller) :
  update_control c = inr c' ->
  pd_gains c' = pd_gains c /\
  exists kp kd,
    pd_gains c "kp"%string = Some kp /\ pd_gains c "kd"%string = Some kd /\
    step_simulator c' = turn kp kd c.
Proof.
  unfold update_control, getitem. intros H.
  destruct (pd_gains c "kp"%string) as [kp|]; [|discriminate].
  destruct (pd_gains c "kd"%string) as [kd|]; [|discriminate].
  injection H as <-. split; [reflexivity|].
  exists kp, kd. repeat split.
Qed.

Lemma update_control_missing (c : controller) (e : ctl_exn) :
  update_control c = inl e ->
  (e = KeyError "kp" /\ pd_gains c "kp"%string = None) \/
  (e = KeyError "kd" /\ pd_gains c "kd"%string = None).
Proof.
  unfold update_control, getitem. intros H.
  destruct (pd_gains c "kp"%string) as [kp|].
  - destruct (pd_gains c "kd"%string) as [kd|]; [discriminate|].
    injection H as <-. now right.
  - injection H as <-. now left.
Qed.


Lemma turns_succ kp kd n (c : controller) :
  turns kp kd (S n) c = turn kp kd (turns kp kd n c).
Proof.
  revert c. induction n as [|n IH]; intros c; [reflexivity|].
  cbn [turns] in *. now rewrite IH.
Qed.


End ControllerProperties.


